(** * jsonformat: the token-driven JSON formatter, embedded and verified

    A shallow embedding of [formatter.go] (package [jsonformat]): the
    configuration with its functional options, the [TokenParser] state
    machine and [Formatter.Format].

    Conventions.
    - Go's [int] is the 64-bit machine integer; it is a [Z] here, and the one
      product the code computes without a bound on its operands
      ([depth * IndentSize] in [writeIndent]) is wrapped with [wrap64].
    - A Go [string] is a sequence of bytes: Rocq's [string] (a list of
      [ascii]); [len] is its length in bytes.
    - A pointer that the code tests against [nil] is an [option].
    - A method of [*TokenParser] that returns [error] is a computation of
      the monad [M]: it takes the parser and returns it, as mutated so far,
      with a value, with the returned error, or with the value of a panic. *)

From Stdlib Require Import ZArith List String Ascii Bool Lia Floats DecimalString.
Import ListNotations.
Set Warnings "-register-all".
Open Scope string_scope.
Open Scope Z_scope.

(** ** Bytes, strings and machine integers *)

(** [len(s)]: the number of bytes of a Go string. *)
Definition len (s : string) : Z := Z.of_nat (String.length s).

(** The numeric value of a byte. *)
Definition byte_val (c : ascii) : Z := Z.of_N (N_of_ascii c).

(** The byte of a value in 0..255. *)
Definition byte_of (z : Z) : ascii := ascii_of_N (Z.to_N z).

Definition quote : string := String (byte_of 34) "".
Definition newline : string := String (byte_of 10) "".
Definition tab : string := String (byte_of 9) "".
Definition backslash : string := String (byte_of 92) "".

(** Two's complement wrap-around of a 64-bit [int]. *)
Definition wrap64 (z : Z) : Z := (z + 2 ^ 63) mod 2 ^ 64 - 2 ^ 63.

Fixpoint repeat_string (s : string) (n : nat) : string :=
  match n with
  | O => ""
  | S k => s ++ repeat_string s k
  end.

(** [strings.Repeat(s, count)]: [None] is its panic on a negative count. *)
Definition strings_Repeat (s : string) (count : Z) : option string :=
  if count <? 0 then None else Some (repeat_string s (Z.to_nat count)).

(** [s] repeated [n] times, for counts too large to run through [nat]
    numerals: used to write long test strings down. *)
Definition repeat_N (s : string) (n : N) : string :=
  N.iter n (String.append s) "".

(** The number of bytes of [s] that equal [c]. *)
Fixpoint count_byte (c : ascii) (s : string) : nat :=
  match s with
  | "" => O
  | String b rest => ((if Ascii.eqb b c then 1 else 0) + count_byte c rest)%nat
  end.

(** ** UTF-8, as package [unicode/utf8] reads it *)

Definition RuneError : Z := 65533.

(** The table [first] of [unicode/utf8] with [acceptRanges] folded in: for
    the first byte of a sequence, the sequence's size and the range its
    second byte must lie in; [None] for a byte that starts no sequence. *)
Definition utf8_first (b0 : Z) : option (nat * Z * Z) :=
  if b0 <? 194 then None                                (* ASCII, 0x80..0xC1 *)
  else if b0 <=? 223 then Some (2%nat, 128, 191)        (* 0xC2..0xDF *)
  else if b0 =? 224 then Some (3%nat, 160, 191)         (* 0xE0 *)
  else if b0 =? 237 then Some (3%nat, 128, 159)         (* 0xED *)
  else if b0 <=? 239 then Some (3%nat, 128, 191)        (* 0xE1..0xEF *)
  else if b0 =? 240 then Some (4%nat, 144, 191)         (* 0xF0 *)
  else if b0 <=? 243 then Some (4%nat, 128, 191)        (* 0xF1..0xF3 *)
  else if b0 =? 244 then Some (4%nat, 128, 143)         (* 0xF4 *)
  else None.                                            (* 0xF5..0xFF *)

Definition is_cont (b : Z) : bool := (128 <=? b) && (b <=? 191).

(** [utf8.DecodeRuneInString]: the first rune of [s] and its width in
    bytes; [(RuneError, 1)] for an invalid or truncated encoding and
    [(RuneError, 0)] for the empty string. *)
Definition utf8_DecodeRuneInString (s : string) : Z * nat :=
  match s with
  | "" => (RuneError, 0%nat)
  | String c0 r0 =>
    let s0 := byte_val c0 in
    if s0 <? 128 then (s0, 1%nat)
    else match utf8_first s0 with
    | None => (RuneError, 1%nat)
    | Some (sz, lo, hi) =>
      match r0 with
      | "" => (RuneError, 1%nat)
      | String c1 r1 =>
        let s1 := byte_val c1 in
        if (s1 <? lo) || (hi <? s1) then (RuneError, 1%nat)
        else if (sz <=? 2)%nat then
          (Z.lor (Z.shiftl (Z.land s0 31) 6) (Z.land s1 63), 2%nat)
        else match r1 with
        | "" => (RuneError, 1%nat)
        | String c2 r2 =>
          let s2 := byte_val c2 in
          if negb (is_cont s2) then (RuneError, 1%nat)
          else if (sz <=? 3)%nat then
            (Z.lor (Z.lor (Z.shiftl (Z.land s0 15) 12)
                          (Z.shiftl (Z.land s1 63) 6)) (Z.land s2 63), 3%nat)
          else match r2 with
          | "" => (RuneError, 1%nat)
          | String c3 _ =>
            let s3 := byte_val c3 in
            if negb (is_cont s3) then (RuneError, 1%nat)
            else
              (Z.lor (Z.lor (Z.lor (Z.shiftl (Z.land s0 7) 18)
                                   (Z.shiftl (Z.land s1 63) 12))
                            (Z.shiftl (Z.land s2 63) 6)) (Z.land s3 63), 4%nat)
          end
        end
      end
    end
  end.

(** [utf8.RuneCountInString]: the number of runes (characters) of [s]; a
    byte that belongs to no valid encoding counts as one rune.  [skip] is
    the number of bytes still to pass of the rune being read. *)
Fixpoint rune_count_from (skip : nat) (s : string) : Z :=
  match s with
  | "" => 0
  | String _ rest =>
    match skip with
    | S k => rune_count_from k rest
    | O => 1 + rune_count_from (Nat.pred (snd (utf8_DecodeRuneInString s))) rest
    end
  end.

Definition utf8_RuneCountInString (s : string) : Z := rune_count_from 0 s.

(** [utf8.AppendRune], for the verb [%c] of [fmt.Sprintf]: the UTF-8
    encoding of a rune, that of U+FFFD for a value that is no rune. *)
Definition utf8_encode (r : Z) : string :=
  let b z := String (byte_of z) "" in
  if (0 <=? r) && (r <? 128) then b r
  else if (128 <=? r) && (r <? 2048) then
    b (Z.lor 192 (Z.shiftr r 6)) ++ b (Z.lor 128 (Z.land r 63))
  else if ((2048 <=? r) && (r <? 55296)) || ((57344 <=? r) && (r <? 65536)) then
    b (Z.lor 224 (Z.shiftr r 12)) ++ b (Z.lor 128 (Z.land (Z.shiftr r 6) 63))
      ++ b (Z.lor 128 (Z.land r 63))
  else if (65536 <=? r) && (r <? 1114112) then
    b (Z.lor 240 (Z.shiftr r 18)) ++ b (Z.lor 128 (Z.land (Z.shiftr r 12) 63))
      ++ b (Z.lor 128 (Z.land (Z.shiftr r 6) 63)) ++ b (Z.lor 128 (Z.land r 63))
  else b 239 ++ b 191 ++ b 189.

(** ** JSON string encoding, as package [encoding/json] does it

    [json.Marshal] of a Go string (its [appendString] with [escapeHTML]
    set, which [Marshal] always does): a byte below 0x80 is kept when it is
    in [htmlSafeSet] and escaped otherwise; an invalid UTF-8 byte becomes
    the escape of U+FFFD; U+2028 and U+2029 are escaped; every other rune is copied. *)

Definition hex_digit (z : Z) : ascii :=
  if z <? 10 then byte_of (48 + z) else byte_of (87 + z).

(** [htmlSafeSet]: the printable ASCII bytes other than the double quote,
    the backslash and the three HTML characters. *)
Definition htmlSafe (b : Z) : bool :=
  (32 <=? b) && (b <? 128) &&
  negb ((b =? 34) || (b =? 38) || (b =? 60) || (b =? 62) || (b =? 92)).

(** What [appendString] writes for one byte below 0x80. *)
Definition escape_ascii (c : ascii) : string :=
  let b := byte_val c in
  if htmlSafe b then String c ""
  else if (b =? 92) || (b =? 34) then backslash ++ String c ""
  else if b =? 8 then backslash ++ "b"
  else if b =? 12 then backslash ++ "f"
  else if b =? 10 then backslash ++ "n"
  else if b =? 13 then backslash ++ "r"
  else if b =? 9 then backslash ++ "t"
  else backslash ++ "u00" ++ String (hex_digit (Z.shiftr b 4))
                               (String (hex_digit (Z.land b 15)) "").

(** Where the loop of [appendString] stands inside a rune it has decoded:
    bytes still to copy, or bytes still to pass over (the rune was written
    as an escape). *)
Inductive pending : Type :=
  | Copy (n : nat)
  | Pass (n : nat).

Fixpoint appendString_from (m : pending) (src : string) : string :=
  match src with
  | "" => ""
  | String c rest =>
    match m with
    | Copy (S k) => String c (appendString_from (Copy k) rest)
    | Pass (S k) => appendString_from (Pass k) rest
    | _ =>
      if byte_val c <? 128 then escape_ascii c ++ appendString_from (Copy 0) rest
      else
        let (r, size) := utf8_DecodeRuneInString src in
        if (r =? RuneError) && (size =? 1)%nat then
          backslash ++ "ufffd" ++ appendString_from (Copy 0) rest
        else if (r =? 8232) || (r =? 8233) then
          backslash ++ "u202" ++ String (hex_digit (Z.land r 15)) ""
            ++ appendString_from (Pass (Nat.pred size)) rest
        else String c (appendString_from (Copy (Nat.pred size)) rest)
    end
  end.

(** The body of the JSON string literal of [s], without its quotes. *)
Definition json_escape (s : string) : string := appendString_from (Copy 0) s.

(** [json.Marshal(s)] for a string [s]; it returns no error. *)
Definition json_Marshal_string (s : string) : string :=
  quote ++ json_escape s ++ quote.

(** ** Errors *)

(** A Go [error] value: a [*FormatError] with its three fields, or an error
    of another package, known by its text.  [nil] is [None]. *)
Inductive error : Type :=
  | OtherError (text : string)
  | FormatError (Msg : string) (Position : Z) (Original : option error).

Definition NewFormatError (msg : string) : error :=
  FormatError msg 0 None.

Definition NewFormatErrorWithPosition (msg : string) (position : Z) : error :=
  FormatError msg position None.

Definition WrapFormatError (msg : string) (err : error) : error :=
  FormatError msg 0 (Some err).

Definition WrapFormatErrorWithPosition (msg : string) (position : Z) (err : error) : error :=
  FormatError msg position (Some err).

(** The message of an error and of each error it wraps, outermost first. *)
Fixpoint messages (e : error) : list string :=
  match e with
  | OtherError text => [text]
  | FormatError msg _ None => [msg]
  | FormatError msg _ (Some cause) => msg :: messages cause
  end.

(** The value a panic carries, as the deferred [recover] of [Format]
    tells them apart. *)
Inductive panicValue : Type :=
  | PanicError (e : error)
  | PanicString (s : string)
  | PanicOther.

(** ** Configuration *)

Record Config : Type := mkConfig {
  IndentSize : Z;
  UseTab : bool;
  CompactDepth : Z
}.

(** A functional option mutates the configuration it is given. *)
Definition ConfigOption : Type := Config -> Config.

Definition DefaultConfig : Config :=
  {| IndentSize := 2; UseTab := false; CompactDepth := 3 |}.

(** [validateConfig]: [None] is the [nil] error. *)
Definition validateConfig (config : option Config) : option error :=
  match config with
  | None => Some (NewFormatError "config cannot be nil")
  | Some c =>
    if IndentSize c <? 0 then Some (NewFormatError "IndentSize must be non-negative")
    else if 20 <? IndentSize c then Some (NewFormatError "IndentSize must not exceed 20 spaces")
    else if CompactDepth c <? 0 then Some (NewFormatError "CompactDepth must be non-negative")
    else None
  end.

(** The loop [for _, option := range options { option(config) }]. *)
Definition applyOptions (options : list ConfigOption) (config : Config) : Config :=
  fold_left (fun c option => option c) options config.

Definition NewConfig (options : list ConfigOption) : Config :=
  let config := applyOptions options DefaultConfig in
  match validateConfig (Some config) with
  | Some _ => DefaultConfig
  | None => config
  end.

Definition WithIndentSize (size : Z) : ConfigOption :=
  fun c =>
    if (0 <=? size) && (size <=? 20)
    then {| IndentSize := size; UseTab := UseTab c; CompactDepth := CompactDepth c |}
    else c.

Definition WithTabs : ConfigOption :=
  fun c => {| IndentSize := IndentSize c; UseTab := true; CompactDepth := CompactDepth c |}.

Definition WithSpaces : ConfigOption :=
  fun c => {| IndentSize := IndentSize c; UseTab := false; CompactDepth := CompactDepth c |}.

Definition WithCompactDepth (depth : Z) : ConfigOption :=
  fun c =>
    if 0 <=? depth
    then {| IndentSize := IndentSize c; UseTab := UseTab c; CompactDepth := depth |}
    else c.

Record Formatter : Type := mkFormatter {
  f_config : option Config
}.

Definition NewFormatter (config : option Config) : Formatter :=
  match config with
  | None => {| f_config := Some DefaultConfig |}
  | Some c => {| f_config := Some c |}
  end.

(** ** Tokens and the decoder *)

(** A [json.Token] as [Decoder.Token] returns it: a delimiter (a rune), a
    string, a [float64], a boolean or [nil]; [TOther] stands for a value of
    any other dynamic type, known by the name [%T] prints. *)
Inductive Token : Type :=
  | TDelim (d : Z)
  | TString (s : string)
  | TFloat64 (v : float)
  | TBool (b : bool)
  | TNil
  | TOther (typeName : string).

Definition LBrace : Z := 123.
Definition RBrace : Z := 125.
Definition LBracket : Z := 91.
Definition RBracket : Z := 93.

(** What a [json.Decoder] over an input delivers to the loop of [Format]:
    the tokens its successive [Token()] calls return and how the stream
    ends, with [io.EOF] ([None]) or with an error of the decoder, the
    reader then holding [unread] bytes. *)
Record Decoder : Type := mkDecoder {
  dec_tokens : list Token;
  dec_end : option (error * Z)
}.

(** ** The parser state *)

(** [TokenParser], without the [decoder] field that no method reads.
    [inArray] is the slice as Go holds it: the innermost container last. *)
Record TokenParser : Type := mkTokenParser {
  depth : Z;
  inArray : list bool;
  builder : option string;
  config : option Config;
  isFirstElement : bool;
  expectingKey : bool;
  inputLength : Z
}.

Definition set_depth (d : Z) (p : TokenParser) : TokenParser :=
  mkTokenParser d (inArray p) (builder p) (config p) (isFirstElement p) (expectingKey p) (inputLength p).

Definition set_inArray (s : list bool) (p : TokenParser) : TokenParser :=
  mkTokenParser (depth p) s (builder p) (config p) (isFirstElement p) (expectingKey p) (inputLength p).

Definition set_builder (b : option string) (p : TokenParser) : TokenParser :=
  mkTokenParser (depth p) (inArray p) b (config p) (isFirstElement p) (expectingKey p) (inputLength p).

Definition set_isFirstElement (v : bool) (p : TokenParser) : TokenParser :=
  mkTokenParser (depth p) (inArray p) (builder p) (config p) v (expectingKey p) (inputLength p).

Definition set_expectingKey (v : bool) (p : TokenParser) : TokenParser :=
  mkTokenParser (depth p) (inArray p) (builder p) (config p) (isFirstElement p) v (inputLength p).

Definition isNil {A : Type} (o : option A) : bool :=
  match o with None => true | Some _ => false end.

(** ** The monad of the parser's methods *)

Inductive outcome (A : Type) : Type :=
  | Ok (a : A) (p : TokenParser)
  | Err (e : error) (p : TokenParser)
  | Panic (v : panicValue) (p : TokenParser).

Arguments Ok {A} a p.
Arguments Err {A} e p.
Arguments Panic {A} v p.

Definition M (A : Type) : Type := TokenParser -> outcome A.

Definition ret {A : Type} (a : A) : M A := fun p => Ok a p.

Definition bind {A B : Type} (m : M A) (k : A -> M B) : M B :=
  fun p =>
    match m p with
    | Ok a p' => k a p'
    | Err e p' => Err e p'
    | Panic v p' => Panic v p'
    end.

Notation "x <- m ;; k" := (bind m (fun x => k))
  (at level 61, m at next level, right associativity).
Notation "m ;; k" := (bind m (fun _ => k))
  (at level 61, right associativity).

(** [return err]. *)
Definition fail {A : Type} (e : error) : M A := fun p => Err e p.

Definition panic {A : Type} (v : panicValue) : M A := fun p => Panic v p.

Definition modify (f : TokenParser -> TokenParser) : M unit := fun p => Ok tt (f p).

(** [if cond { return err }]. *)
Definition guard (cond : TokenParser -> bool) (e : error) : M unit :=
  fun p => if cond p then Err e p else Ok tt p.

(** [if cond { m1 } else { m2 }], the condition read off the parser. *)
Definition ifM {A : Type} (cond : TokenParser -> bool) (m1 m2 : M A) : M A :=
  fun p => if cond p then m1 p else m2 p.

(** [if err := m; err != nil { return WrapFormatError(msg, err) }]. *)
Definition wrapError {A : Type} (msg : string) (m : M A) : M A :=
  fun p =>
    match m p with
    | Err e p' => Err (WrapFormatError msg e) p'
    | o => o
    end.

(** The runtime error of a nil pointer dereference. *)
Definition nilDereference : panicValue :=
  PanicError (OtherError "runtime error: invalid memory address or nil pointer dereference").

(** [p.builder.WriteString(s)].  A [strings.Builder] returns no error, so
    the branches the code has for one are never taken. *)
Definition WriteString (s : string) : M unit :=
  fun p =>
    match builder p with
    | Some b => Ok tt (set_builder (Some (b ++ s)) p)
    | None => Panic nilDereference p
    end.

(** [*p.config], read. *)
Definition getConfig : M Config :=
  fun p =>
    match config p with
    | Some c => Ok c p
    | None => Panic nilDereference p
    end.

(** ** The parser's methods that need no collaborator *)

Definition enterArray : M unit :=
  guard (fun p => depth p <? 0) (NewFormatError "invalid parser state: negative depth") ;;
  guard (fun p => 100 <=? depth p)
        (NewFormatError "JSON structure too deeply nested (max depth: 100)") ;;
  modify (fun p => set_depth (depth p + 1) p) ;;
  modify (fun p => set_inArray (inArray p ++ [true])%list p).

Definition exitArray : M unit :=
  guard (fun p => depth p <=? 0)
        (NewFormatError "invalid parser state: cannot exit array, depth is zero or negative") ;;
  guard (fun p => (List.length (inArray p) =? 0)%nat)
        (NewFormatError "invalid parser state: cannot exit array, no array context") ;;
  guard (fun p => negb (last (inArray p) false))
        (NewFormatError "invalid parser state: cannot exit array, currently in object context") ;;
  modify (fun p => set_depth (depth p - 1) p) ;;
  modify (fun p => set_inArray (removelast (inArray p)) p).

Definition enterObject : M unit :=
  guard (fun p => depth p <? 0) (NewFormatError "invalid parser state: negative depth") ;;
  guard (fun p => 100 <=? depth p)
        (NewFormatError "JSON structure too deeply nested (max depth: 100)") ;;
  modify (fun p => set_depth (depth p + 1) p) ;;
  modify (fun p => set_inArray (inArray p ++ [false])%list p).

Definition exitObject : M unit :=
  guard (fun p => depth p <=? 0)
        (NewFormatError "invalid parser state: cannot exit object, depth is zero or negative") ;;
  guard (fun p => (List.length (inArray p) =? 0)%nat)
        (NewFormatError "invalid parser state: cannot exit object, no object context") ;;
  guard (fun p => last (inArray p) false)
        (NewFormatError "invalid parser state: cannot exit object, currently in array context") ;;
  modify (fun p => set_depth (depth p - 1) p) ;;
  modify (fun p => set_inArray (removelast (inArray p)) p).

(** [isInArray]: the top of the stack, [false] when it is empty. *)
Definition isInArray (p : TokenParser) : bool :=
  if (List.length (inArray p) =? 0)%nat then false else last (inArray p) false.

(** The compact-rendering predicate on a threshold and a depth. *)
Definition compactAt (compactDepth depth : Z) : bool :=
  (0 <? compactDepth) && (compactDepth <=? depth).

(** [shouldFormatCompact]:
    [p.config.CompactDepth > 0 && p.depth >= p.config.CompactDepth]. *)
Definition shouldFormatCompact : M bool :=
  c <- getConfig ;;
  fun p => Ok ((0 <? CompactDepth c) && (CompactDepth c <=? depth p)) p.

Definition writeIndent : M unit :=
  guard (fun p => isNil (builder p)) (NewFormatError "invalid parser state: builder is nil") ;;
  guard (fun p => isNil (config p)) (NewFormatError "invalid parser state: config is nil") ;;
  guard (fun p => depth p <? 0) (NewFormatError "invalid parser state: negative depth") ;;
  c <- getConfig ;;
  fun p =>
    if UseTab c then
      match strings_Repeat tab (depth p) with
      | Some indentStr => WriteString indentStr p
      | None => Panic (PanicString "strings: negative Repeat count") p
      end
    else
      let totalSpaces := wrap64 (depth p * IndentSize c) in
      if 10000 <? totalSpaces then
        Err (NewFormatError "indentation too large (exceeds 10000 characters)") p
      else
        match strings_Repeat " " totalSpaces with
        | Some indentStr => WriteString indentStr p
        | None => Panic (PanicString "strings: negative Repeat count") p
        end.

Definition writeNewlineAndIndent : M unit :=
  guard (fun p => isNil (builder p)) (NewFormatError "invalid parser state: builder is nil") ;;
  WriteString newline ;;
  wrapError "failed to write indentation after newline" writeIndent.

(** [escapedStr[1 : len(escapedStr)-1]] when [escapedStr] has two bytes or
    more and starts and ends with a double quote, [escapedStr] otherwise. *)
Definition strip_quotes (escapedStr : string) : string :=
  let n := String.length escapedStr in
  if (2 <=? n)%nat
     && match String.get 0 escapedStr with Some c => byte_val c =? 34 | None => false end
     && match String.get (n - 1) escapedStr with Some c => byte_val c =? 34 | None => false end
  then String.substring 1 (n - 2) escapedStr
  else escapedStr.

Definition escapeString (s : string) : M string :=
  if 1000000 <? len s then
    fail (NewFormatError "string too large for escaping (exceeds 1MB limit)")
  else ret (strip_quotes (json_Marshal_string s)).

(** [if shouldFormatCompact() { write " " } else { writeNewlineAndIndent }],
    after a comma. *)
Definition spaceOrNewline : M unit :=
  compact <- shouldFormatCompact ;;
  if compact then WriteString " "
  else wrapError "failed to write newline and indent" writeNewlineAndIndent.

(** The block that [startObject], [handleString] (for a value),
    [handleNumber], [handleBoolean] and [handleNull] each repeat: a comma
    and a space or a new line before an element of an array that is not
    its first, a new line before the first unless the array is compact. *)
Definition writeElementSeparator : M unit :=
  ifM (fun p => negb (isFirstElement p) && isInArray p)
      (WriteString "," ;; spaceOrNewline)
      (ifM (fun p => (0 <? depth p) && isInArray p)
           (compact <- shouldFormatCompact ;;
            if compact then ret tt
            else wrapError "failed to write newline and indent" writeNewlineAndIndent)
           (ret tt)).

(** The two statements every scalar value ends with:
    [p.isFirstElement = false; if !p.isInArray() { p.expectingKey = true }]. *)
Definition markElement : M unit :=
  modify (set_isFirstElement false) ;;
  ifM (fun p => negb (isInArray p)) (modify (set_expectingKey true)) (ret tt).

Definition nilGuards : M unit :=
  guard (fun p => isNil (builder p)) (NewFormatError "invalid parser state: builder is nil") ;;
  guard (fun p => isNil (config p)) (NewFormatError "invalid parser state: config is nil").

Definition startObject : M unit :=
  nilGuards ;;
  guard (fun p => expectingKey p && (0 <? depth p))
        (NewFormatError "malformed JSON: unexpected object start, expected object key") ;;
  guard (fun p => 100 <=? depth p)
        (NewFormatError "JSON structure too deeply nested (max depth: 100)") ;;
  writeElementSeparator ;;
  ifM (fun p => (0 <? depth p) && negb (isInArray p)) (WriteString " {") (WriteString "{") ;;
  wrapError "failed to enter object state" enterObject ;;
  modify (set_isFirstElement true) ;;
  modify (set_expectingKey true).

Definition endObject : M unit :=
  nilGuards ;;
  guard (fun p => depth p =? 0)
        (NewFormatError "malformed JSON: unexpected object end, no matching opening brace") ;;
  guard (fun p => (List.length (inArray p) =? 0)%nat)
        (NewFormatError "malformed JSON: unexpected object end, invalid parser state") ;;
  guard isInArray
        (NewFormatError "malformed JSON: unexpected object end, currently in array context") ;;
  isCompact <- shouldFormatCompact ;;
  wrapError "failed to exit object state" exitObject ;;
  modify (set_expectingKey false) ;;
  (if isCompact then WriteString "}"
   else wrapError "failed to write newline and indent" writeNewlineAndIndent ;;
        WriteString "}").

Definition startArray : M unit :=
  nilGuards ;;
  guard (fun p => expectingKey p && (0 <? depth p))
        (NewFormatError "malformed JSON: unexpected array start, expected object key") ;;
  guard (fun p => 100 <=? depth p)
        (NewFormatError "JSON structure too deeply nested (max depth: 100)") ;;
  ifM (fun p => negb (isFirstElement p) && isInArray p)
      (WriteString "," ;; spaceOrNewline)
      (ret tt) ;;
  ifM (fun p => (0 <? depth p) && negb (isInArray p)) (WriteString " [") (WriteString "[") ;;
  wrapError "failed to enter array state" enterArray ;;
  modify (set_isFirstElement true) ;;
  modify (set_expectingKey false).

Definition endArray : M unit :=
  nilGuards ;;
  guard (fun p => depth p =? 0)
        (NewFormatError "malformed JSON: unexpected array end, no matching opening bracket") ;;
  guard (fun p => (List.length (inArray p) =? 0)%nat)
        (NewFormatError "malformed JSON: unexpected array end, invalid parser state") ;;
  guard (fun p => negb (isInArray p))
        (NewFormatError "malformed JSON: unexpected array end, currently in object context") ;;
  isCompact <- shouldFormatCompact ;;
  wrapError "failed to exit array state" exitArray ;;
  (if isCompact then WriteString "]"
   else wrapError "failed to write newline and indent" writeNewlineAndIndent ;;
        WriteString "]") ;;
  ifM (fun p => negb (isInArray p)) (modify (set_expectingKey true)) (ret tt).

(** [fmt.Sprintf("unknown delimiter: %c", delim)]. *)
Definition unknownDelimiter (delim : Z) : error :=
  NewFormatError ("unknown delimiter: " ++ utf8_encode delim).

Definition handleDelimiter (delim : Z) : M unit :=
  if delim =? LBrace then startObject
  else if delim =? RBrace then endObject
  else if delim =? LBracket then startArray
  else if delim =? RBracket then endArray
  else fail (unknownDelimiter delim).

Definition handleString (value : string) : M unit :=
  nilGuards ;;
  guard (fun _ => 1000000 <? len value)
        (NewFormatError "string value too large (exceeds 1MB limit)") ;;
  ifM expectingKey
    (guard (fun p => (depth p =? 0) || isInArray p)
           (NewFormatError "malformed JSON: unexpected object key outside of object context") ;;
     ifM (fun p => negb (isFirstElement p))
         (WriteString "," ;; spaceOrNewline)
         (ifM (fun p => 0 <? depth p)
              (compact <- shouldFormatCompact ;;
               if negb compact
               then wrapError "failed to write newline and indent" writeNewlineAndIndent
               else ret tt)
              (ret tt)) ;;
     WriteString quote ;;
     escapedKey <- wrapError "failed to escape object key" (escapeString value) ;;
     WriteString escapedKey ;;
     WriteString (quote ++ ":") ;;
     modify (set_isFirstElement false) ;;
     modify (set_expectingKey false))
    (writeElementSeparator ;;
     ifM (fun p => (0 <? depth p) && negb (isInArray p))
         (WriteString (" " ++ quote)) (WriteString quote) ;;
     escapedValue <- wrapError "failed to escape string value" (escapeString value) ;;
     WriteString escapedValue ;;
     WriteString quote ;;
     markElement).

Definition handleBoolean (value : bool) : M unit :=
  nilGuards ;;
  guard expectingKey
        (NewFormatError "malformed JSON: unexpected boolean, expected object key") ;;
  writeElementSeparator ;;
  (let boolStr := if value then "true" else "false" in
   ifM (fun p => (0 <? depth p) && negb (isInArray p))
       (WriteString (" " ++ boolStr)) (WriteString boolStr)) ;;
  markElement.

Definition handleNull : M unit :=
  nilGuards ;;
  guard expectingKey
        (NewFormatError "malformed JSON: unexpected null, expected object key") ;;
  writeElementSeparator ;;
  ifM (fun p => (0 <? depth p) && negb (isInArray p))
      (WriteString " null") (WriteString "null") ;;
  markElement.

(** [value != value]. *)
Definition isNaN (value : float) : bool := negb (PrimFloat.eqb value value).

(** [value == value+1 && value == value*2]. *)
Definition isInfinite (value : float) : bool :=
  PrimFloat.eqb value (value + 1)%float && PrimFloat.eqb value (value * 2)%float.

(** [calculatePosition(reader)], [unread] being [reader.Len()]. *)
Definition calculatePosition (p : TokenParser) (unread : Z) : Z :=
  let currentPos := inputLength p - unread in
  if currentPos <? 0 then 0
  else if inputLength p <? currentPos then inputLength p
  else currentPos.

(** ** Inputs of the scenarios *)


(** The input of scenario 1 and the tokens the decoder reads from it. *)
Definition scenario1 : string :=
  "{" ++ quote ++ "a" ++ quote ++ ":[{" ++ quote ++ "b" ++ quote ++ ":1},{"
      ++ quote ++ "c" ++ quote ++ ":2}]}".

Definition scenario1_tokens : list Token :=
  [TDelim LBrace; TString "a"; TDelim LBracket;
   TDelim LBrace; TString "b"; TFloat64 1; TDelim RBrace;
   TDelim LBrace; TString "c"; TFloat64 2; TDelim RBrace;
   TDelim RBracket; TDelim RBrace].

(** What [Format] returns for scenario 1 under the default configuration:
    the bracket follows the key on its line. *)
Definition scenario1_output : string :=
  "{" ++ newline
  ++ "  " ++ quote ++ "a" ++ quote ++ ": [" ++ newline
  ++ "    {" ++ quote ++ "b" ++ quote ++ ": 1}," ++ newline
  ++ "    {" ++ quote ++ "c" ++ quote ++ ": 2}" ++ newline
  ++ "  ]" ++ newline
  ++ "}".

(** The layout with the bracket on a line of its own, after a key line
    that ends with a space. *)
Definition scenario1_bracket_below : string :=
  "{" ++ newline
  ++ "  " ++ quote ++ "a" ++ quote ++ ": " ++ newline
  ++ "  [" ++ newline
  ++ "    {" ++ quote ++ "b" ++ quote ++ ": 1}," ++ newline
  ++ "    {" ++ quote ++ "c" ++ quote ++ ": 2}" ++ newline
  ++ "  ]" ++ newline
  ++ "}".

(** An object value followed by a sibling key, and its tokens. *)
Definition siblingAfterObject : string :=
  "{" ++ quote ++ "a" ++ quote ++ ":{" ++ quote ++ "x" ++ quote ++ ":1},"
      ++ quote ++ "b" ++ quote ++ ":2}".

Definition siblingAfterObject_tokens : list Token :=
  [TDelim LBrace; TString "a";
   TDelim LBrace; TString "x"; TFloat64 1; TDelim RBrace;
   TString "b"; TFloat64 2; TDelim RBrace].

(** The input [[1]] and its tokens. *)
Definition oneElementArray : string := "[1]".

Definition oneElementArray_tokens : list Token :=
  [TDelim LBracket; TFloat64 1; TDelim RBracket].

(** A decoder that reads [tokens] from every input and then meets the end
    of the input. *)
Definition decoderOf (tokens : list Token) : string -> Decoder :=
  fun _ => {| dec_tokens := tokens; dec_end := None |}.

(** A number marshaller that agrees with [json.Marshal] on the numbers of
    the scenarios. *)
Definition marshalSmall (v : float) : string :=
  if PrimFloat.eqb v 1 then "1" else if PrimFloat.eqb v 2 then "2" else "0".

(** A string of 333334 three-byte characters (U+3042), 1000002 bytes. *)
Definition hiragana_a : string :=
  String (byte_of 227) (String (byte_of 129) (String (byte_of 130) "")).

Definition wideString : string := repeat_N hiragana_a 333334.

(** ** The engine *)

Section Engine.

(** The collaborators of package [encoding/json]: [json.Marshal] on a
    finite [float64] (the code rules out the two values it refuses) and
    the decoder over an input. *)
Variable json_Marshal_float64 : float -> string.
Variable json_NewDecoder : string -> Decoder.

Definition formatNumber (value : float) : M string :=
  if isNaN value then fail (NewFormatError "cannot format NaN as JSON number")
  else if isInfinite value then
    fail (NewFormatError "cannot format infinite value as JSON number")
  else ret (json_Marshal_float64 value).

Definition handleNumber (value : float) : M unit :=
  nilGuards ;;
  guard expectingKey
        (NewFormatError "malformed JSON: unexpected number, expected object key") ;;
  guard (fun _ => isNaN value)
        (NewFormatError "invalid JSON: NaN values are not allowed") ;;
  guard (fun _ => isInfinite value)
        (NewFormatError "invalid JSON: infinite values are not allowed") ;;
  writeElementSeparator ;;
  formattedNumber <- wrapError "failed to format number" (formatNumber value) ;;
  ifM (fun p => (0 <? depth p) && negb (isInArray p))
      (WriteString (" " ++ formattedNumber)) (WriteString formattedNumber) ;;
  markElement.

Definition processToken (token : Token) : M unit :=
  guard (fun p => depth p <? 0) (NewFormatError "invalid parser state: negative depth") ;;
  guard (fun p => 100 <? depth p)
        (NewFormatError "JSON structure too deeply nested (max depth: 100)") ;;
  match token with
  | TDelim v => handleDelimiter v
  | TString v => handleString v
  | TFloat64 v => handleNumber v
  | TBool v => handleBoolean v
  | TNil => handleNull
  | TOther typeName => fail (NewFormatError ("unknown token type: " ++ typeName))
  end.

(** How the loop of [Format] ends: with a [return], by [break] at
    [io.EOF], or by a panic. *)
Inductive loopEnd : Type :=
  | Returned (result : string) (err : option error)
  | Broke (tokenCount : Z) (p : TokenParser)
  | Panicked (v : panicValue).

(** The loop [for { token, err := decoder.Token(); ... }] over what the
    decoder still has to deliver. *)
Fixpoint tokenLoop (tokens : list Token) (ending : option (error * Z))
         (tokenCount : Z) (p : TokenParser) : loopEnd :=
  match tokens with
  | [] =>
    match ending with
    | None => Broke tokenCount p
    | Some (err, unread) =>
      Returned "" (Some (WrapFormatErrorWithPosition "invalid JSON input"
                                                     (calculatePosition p unread) err))
    end
  | token :: rest =>
    let tokenCount := tokenCount + 1 in
    if 10000 <? tokenCount then
      Returned "" (Some (NewFormatError
                           "JSON structure too complex or malformed (too many tokens)"))
    else
      match processToken token p with
      | Ok _ p' => tokenLoop rest ending tokenCount p'
      | Err e _ => Returned "" (Some e)
      | Panic v _ => Panicked v
      end
  end.

(** The parser [Format] starts from. *)
Definition newParser (f : Formatter) (jsonStr : string) : TokenParser :=
  {| depth := 0; inArray := []; builder := Some ""; config := f_config f;
     isFirstElement := true; expectingKey := false; inputLength := len jsonStr |}.

(** [builder.String()]. *)
Definition builderString (p : TokenParser) : string :=
  match builder p with Some b => b | None => "" end.

(** How a run of [Format]'s body ends: with a [return] or by a panic. *)
Inductive bodyEnd : Type :=
  | Return (result : string) (err : option error)
  | Unwound (v : panicValue).

(** The body of [Format], before the deferred function runs. *)
Definition formatBody (f : Formatter) (jsonStr : string) : bodyEnd :=
  if String.eqb jsonStr "" then
    Return "" (Some (NewFormatError "input JSON string is empty"))
  else
    let decoder := json_NewDecoder jsonStr in
    match tokenLoop (dec_tokens decoder) (dec_end decoder) 0 (newParser f jsonStr) with
    | Returned result err => Return result err
    | Panicked v => Unwound v
    | Broke tokenCount p =>
      if negb (depth p =? 0) then
        Return "" (Some (NewFormatError "malformed JSON: unclosed objects or arrays"))
      else if tokenCount =? 0 then
        Return "" (Some (NewFormatError "input contains no valid JSON tokens"))
      else Return (builderString p) None
    end.

(** [Format]: the body, then the deferred function, which turns a panic
    into an error and an empty result. *)
Definition Format (f : Formatter) (jsonStr : string) : string * option error :=
  match formatBody f jsonStr with
  | Return result err => (result, err)
  | Unwound (PanicError v) => ("", Some (WrapFormatError "panic during formatting" v))
  | Unwound (PanicString v) => ("", Some (NewFormatError ("panic during formatting: " ++ v)))
  | Unwound PanicOther => ("", Some (NewFormatError "unexpected panic during formatting"))
  end.

(** [FormatBytes]: [nil] bytes with the error, the bytes of the result
    otherwise. *)
Definition FormatBytes (f : Formatter) (jsonBytes : string) : option string * option error :=
  match Format f jsonBytes with
  | (_, Some err) => (None, Some err)
  | (formatted, None) => (Some formatted, None)
  end.

End Engine.

(** ** The decoder's grammar, token by token

    [Decoder.Token] checks each token against the position it stands in
    (its [tokenState]); commas and colons are no tokens.  [decoderStep] is
    that check on the stack of open containers, the innermost first: a
    value may stand at the top level, in an array, and after a key; a key
    or the closing brace may stand where an object expects a key. *)
Inductive frame : Type :=
  | FArray
  | FObjectKey
  | FObjectValue.

(** A value has ended in the innermost container. *)
Definition valueDone (stack : list frame) : list frame :=
  match stack with
  | FObjectValue :: outer => FObjectKey :: outer
  | _ => stack
  end.





(** ** Predicates of the properties *)

(** The parser after [tokens], each processed in turn by [processToken]. *)
Fixpoint runTokens (marshal : float -> string) (tokens : list Token) : M unit :=
  match tokens with
  | [] => ret tt
  | token :: rest => processToken marshal token ;; runTokens marshal rest
  end.

(** The states of a format operation: the parser [Format] starts from and
    the parser after each token processed without error. *)
Inductive reachable (marshal : float -> string) (f : Formatter) (jsonStr : string)
  : TokenParser -> Prop :=
  | reach_start : reachable marshal f jsonStr (newParser f jsonStr)
  | reach_token : forall p token p',
      reachable marshal f jsonStr p ->
      processToken marshal token p = Ok tt p' ->
      reachable marshal f jsonStr p'.

(** The stack has one tag per open container and the depth is in range. *)
Definition balanced (p : TokenParser) : Prop :=
  Z.of_nat (List.length (inArray p)) = depth p /\ 0 <= depth p <= 100.

Definition validConfig (c : Config) : Prop :=
  0 <= IndentSize c <= 20 /\ 0 <= CompactDepth c.

(** No byte of [s] is one of the three HTML characters. *)
Definition htmlClean (s : string) : Prop :=
  count_byte "<" s = O /\ count_byte ">" s = O /\ count_byte "&" s = O.

(** The first [k] bytes of [s] are there and are not ASCII. *)
Fixpoint highBytes (k : nat) (s : string) : Prop :=
  match k with
  | O => True
  | S k' =>
    match s with
    | "" => False
    | String c rest => 128 <= byte_val c /\ highBytes k' rest
    end
  end.

(** The bytes [appendString] still has to copy or pass are the rest of the
    rune it decoded. *)
Definition pendingOk (m : pending) (s : string) : Prop :=
  match m with Copy k | Pass k => highBytes k s end.

(** A string of one element with an HTML character in it, and the array
    that holds it. *)
Definition htmlString : string := "a<b>&c".

Definition htmlArray_tokens : list Token :=
  [TDelim LBracket; TString htmlString; TDelim RBracket].

Definition htmlArray : string := "[" ++ quote ++ htmlString ++ quote ++ "]".


(** What a token adds to the nesting depth. *)
Definition tokenDelta (token : Token) : Z :=
  match token with
  | TDelim d =>
    if (d =? LBrace) || (d =? LBracket) then 1
    else if (d =? RBrace) || (d =? RBracket) then -1
    else 0
  | _ => 0
  end.

(** The nesting depth [tokens] end at, counted from where they start. *)
Fixpoint nestingOf (tokens : list Token) : Z :=
  match tokens with
  | [] => 0
  | token :: rest => tokenDelta token + nestingOf rest
  end.

Definition tooManyTokens : error :=
  NewFormatError "JSON structure too complex or malformed (too many tokens)".


Definition isOpener (token : Token) : Prop :=
  token = TDelim LBrace \/ token = TDelim LBracket.

Definition isCloser (token : Token) : Prop :=
  token = TDelim RBrace \/ token = TDelim RBracket.

(** The parser of a format operation after its first token, an opening
    bracket, under the default configuration. *)
Definition afterOpenBracket : TokenParser :=
  {| depth := 1; inArray := [true]; builder := Some "["; config := Some DefaultConfig;
     isFirstElement := true; expectingKey := false; inputLength := 2 |}.

(** What a scalar token leaves of the parser when it is processed. *)
Definition scalarEffect (p p' : TokenParser) : Prop :=
  depth p' = depth p /\ inArray p' = inArray p /\
  config p' = config p /\ inputLength p' = inputLength p /\
  builder p' <> None /\ config p <> None /\ isFirstElement p' = false.





(** ** The text of an error *)

(** The verb [%d] of [fmt.Sprintf] on an [int]. *)
Definition sprintf_d (n : Z) : string := NilZero.string_of_int (Z.to_int n).

(** The method [Error] of [FormatError]; the verb [%v] on the wrapped
    error calls that error's own [Error]. *)
Fixpoint Error (e : error) : string :=
  match e with
  | OtherError text => text
  | FormatError msg position original =>
    if 0 <? position then
      match original with
      | Some cause => msg ++ " at position " ++ sprintf_d position ++ ": " ++ Error cause
      | None => msg ++ " at position " ++ sprintf_d position
      end
    else
      match original with
      | Some cause => msg ++ ": " ++ Error cause
      | None => msg
      end
  end.

(** The method [Unwrap] of [FormatError]: the field [Original]; an error
    of another package is taken to wrap nothing. *)
Definition Unwrap (e : error) : option error :=
  match e with
  | OtherError _ => None
  | FormatError _ _ original => original
  end.

(** The innermost error of a chain of wrapped errors. *)
Fixpoint rootCause (e : error) : error :=
  match e with
  | OtherError text => OtherError text
  | FormatError msg position None => FormatError msg position None
  | FormatError _ _ (Some cause) => rootCause cause
  end.

(** [s] ends with [suffix]. *)
Definition endsWith (s suffix : string) : Prop := exists front, s = front ++ suffix.

(** [s] starts with [prefix]. *)
Definition startsWith (s prefix : string) : Prop := exists back, s = prefix ++ back.

(** ** More predicates *)

(** The options the package exports. *)
Inductive builtinOption : ConfigOption -> Prop :=
  | builtin_indent : forall size, builtinOption (WithIndentSize size)
  | builtin_tabs : builtinOption WithTabs
  | builtin_spaces : builtinOption WithSpaces
  | builtin_compact : forall depth, builtinOption (WithCompactDepth depth).

(** A parser in the middle of a format operation under a configuration
    that passes [validateConfig]. *)
Definition ready (p : TokenParser) : Prop :=
  balanced p /\ builder p <> None /\
  exists c, config p = Some c /\ validConfig c.

(** Every byte of [s] is 0x20 or above. *)
Fixpoint printable (s : string) : bool :=
  match s with
  | "" => true
  | String c rest => (32 <=? byte_val c) && printable rest
  end.

(** The indentation of a line at [depth] under [c]. *)
Definition indentOf (c : Config) (depth : Z) : string :=
  if UseTab c then repeat_string tab (Z.to_nat depth)
  else repeat_string " " (Z.to_nat (depth * IndentSize c)).

(** What a method may end in under a valid configuration: a result, or
    an error with the parser as it was; no panic. *)
Definition settled {A : Type} (p : TokenParser) (o : outcome A) : Prop :=
  match o with
  | Ok _ _ => True
  | Err _ p' => p' = p
  | Panic _ _ => False
  end.

(** The top of a stack of container tags, [false] for the empty stack:
    what [isInArray] reads. *)
Definition topIsArray (st : list bool) : bool :=
  if (List.length st =? 0)%nat then false else last st false.

(** What closing a container at [depth] writes: the delimiter alone when
    the container is compact, a line break and the indentation of the
    enclosing level before it otherwise. *)
Definition closeText (c : Config) (depth : Z) (delim : string) : string :=
  if compactAt (CompactDepth c) depth then delim
  else newline ++ indentOf c (depth - 1) ++ delim.

(** What a token adds to the number of open objects, and of open
    arrays. *)
Definition braceDelta (token : Token) : Z :=
  match token with
  | TDelim d => if d =? LBrace then 1 else if d =? RBrace then -1 else 0
  | _ => 0
  end.

Definition bracketDelta (token : Token) : Z :=
  match token with
  | TDelim d => if d =? LBracket then 1 else if d =? RBracket then -1 else 0
  | _ => 0
  end.

Fixpoint total (delta : Token -> Z) (tokens : list Token) : Z :=
  match tokens with
  | [] => 0
  | token :: rest => delta token + total delta rest
  end.

(** The number of tags of a stack that are [kind]. *)
Definition tagCount (kind : bool) (st : list bool) : Z :=
  Z.of_nat (count_occ bool_dec st kind).

Definition unclosedError : error :=
  NewFormatError "malformed JSON: unclosed objects or arrays".

Definition noTokensError : error :=
  NewFormatError "input contains no valid JSON tokens".

(** A stream of [n] [null] tokens. *)
Definition nulls (n : Z) : list Token := repeat TNil (Z.to_nat n).

(** What precedes an element that starts a line of its own: nothing in a
    compact container, a line break and the indentation otherwise; and
    what separates it from the element before. *)
Definition lineBreak (c : Config) (depth : Z) : string :=
  if compactAt (CompactDepth c) depth then "" else newline ++ indentOf c depth.

Definition commaBreak (c : Config) (depth : Z) : string :=
  "," ++ (if compactAt (CompactDepth c) depth then " " else newline ++ indentOf c depth).

Definition elementLead (c : Config) (depth : Z) (first : bool) : string :=
  if first then lineBreak c depth else commaBreak c depth.

Definition boolText (v : bool) : string := if v then "true" else "false".

(** Every byte of [s] is in [htmlSafeSet]. *)
Fixpoint safeText (s : string) : bool :=
  match s with
  | "" => true
  | String c rest => htmlSafe (byte_val c) && safeText rest
  end.

(** The number of line breaks the builder holds. *)
Definition lineBreaks (p : TokenParser) : nat := count_byte (byte_of 10) (builderString p).

(** The text of a value that is no container, when the code accepts it:
    a finite number, a string within the length limit. *)
Definition scalarText (marshal : float -> string) (token : Token) : option string :=
  match token with
  | TNil => Some "null"
  | TBool v => Some (boolText v)
  | TFloat64 v => if isNaN v || isInfinite v then None else Some (marshal v)
  | TString s => if 1000000 <? len s then None else Some (quote ++ json_escape s ++ quote)
  | _ => None
  end.

(** The elements of an array of such values, at [depth], each after what
    leads it in. *)
Fixpoint elementsText (marshal : float -> string) (c : Config) (depth : Z) (first : bool)
         (elements : list Token) : option string :=
  match elements with
  | [] => Some ""
  | token :: rest =>
    match scalarText marshal token, elementsText marshal c depth false rest with
    | Some text, Some others => Some (elementLead c depth first ++ text ++ others)
    | _, _ => None
    end
  end.

(** The members of an object whose values are such values: each key after
    what leads it in, a colon, a space and the value. *)
Fixpoint membersText (marshal : float -> string) (c : Config) (depth : Z) (first : bool)
         (members : list (string * Token)) : option string :=
  match members with
  | [] => Some ""
  | (key, value) :: rest =>
    match scalarText marshal value, membersText marshal c depth false rest with
    | Some text, Some others =>
      if 1000000 <? len key then None
      else Some (elementLead c depth first ++ quote ++ json_escape key ++ quote ++ ":"
                   ++ " " ++ text ++ others)
    | _, _ => None
    end
  end.

(** The tokens of the members of an object, a key before each value. *)
Fixpoint memberTokens (members : list (string * Token)) : list Token :=
  match members with
  | [] => []
  | (key, value) :: rest => TString key :: value :: memberTokens rest
  end.

(** ** Tactics *)

Ltac unfold_engine :=
  unfold processToken, handleDelimiter, handleString, handleNumber, handleBoolean,
    handleNull, startObject, endObject, startArray, endArray, enterObject, exitObject,
    enterArray, exitArray, writeElementSeparator, spaceOrNewline, markElement,
    writeNewlineAndIndent, writeIndent, shouldFormatCompact, getConfig, escapeString,
    formatNumber, nilGuards, WriteString, wrapError, guard, ifM, modify, fail, panic,
    bind, ret, isInArray, set_depth, set_inArray, set_builder, set_isFirstElement,
    set_expectingKey, isNil in *.

(** Case analysis on every test the goal still branches on. *)
Ltac split_ifs :=
  repeat match goal with
         | |- context [match ?c with _ => _ end] =>
           match type of c with
           | bool => destruct c eqn:?
           | option _ => destruct c eqn:?
           end; cbn in *
         end.

(** Boolean comparisons of the hypotheses, as propositions. *)
Ltac zbool :=
  repeat match goal with
         | H : (_ <? _) = true |- _ => apply Z.ltb_lt in H
         | H : (_ <? _) = false |- _ => apply Z.ltb_ge in H
         | H : (_ <=? _) = true |- _ => apply Z.leb_le in H
         | H : (_ <=? _) = false |- _ => apply Z.leb_gt in H
         | H : (_ =? _) = true |- _ => apply Z.eqb_eq in H
         | H : (_ =? _) = false |- _ => apply Z.eqb_neq in H
         | H : (_ =? _)%nat = true |- _ => apply Nat.eqb_eq in H
         | H : (_ =? _)%nat = false |- _ => apply Nat.eqb_neq in H
         | H : (_ && _)%bool = true |- _ => apply andb_true_iff in H; destruct H
         | H : (_ || _)%bool = false |- _ => apply orb_false_iff in H; destruct H
         | H : negb _ = true |- _ => apply negb_true_iff in H
         | H : negb _ = false |- _ => apply negb_false_iff in H
         end.

(** ** Strings *)

Lemma append_assoc (a b c : string) : (a ++ b) ++ c = a ++ b ++ c.
Proof. induction a; cbn; congruence. Qed.

Lemma append_nil_r (a : string) : a ++ "" = a.
Proof. induction a; cbn; congruence. Qed.

Lemma length_append (a b : string) :
  String.length (a ++ b) = (String.length a + String.length b)%nat.
Proof. induction a; cbn; congruence. Qed.

Lemma len_append (a b : string) : len (a ++ b) = len a + len b.
Proof. unfold len. rewrite length_append. lia. Qed.

Lemma len_nonneg (s : string) : 0 <= len s.
Proof. unfold len. lia. Qed.

Lemma count_byte_append (c : ascii) (a b : string) :
  count_byte c (a ++ b) = (count_byte c a + count_byte c b)%nat.
Proof. induction a; cbn; [reflexivity | rewrite IHa; lia]. Qed.

Lemma length_repeat_string (s : string) (n : nat) :
  String.length (repeat_string s n) = (n * String.length s)%nat.
Proof. induction n; cbn; [reflexivity | rewrite length_append, IHn; reflexivity]. Qed.

Lemma count_byte_repeat_string (c : ascii) (s : string) (n : nat) :
  count_byte c (repeat_string s n) = (n * count_byte c s)%nat.
Proof. induction n; cbn; [reflexivity | rewrite count_byte_append, IHn; reflexivity]. Qed.

Lemma repeat_N_succ (s : string) (n : N) : repeat_N s (N.succ n) = s ++ repeat_N s n.
Proof. unfold repeat_N. rewrite N.iter_succ. reflexivity. Qed.

Lemma len_repeat_N (s : string) (n : N) : len (repeat_N s n) = Z.of_N n * len s.
Proof.
  induction n using N.peano_ind.
  - reflexivity.
  - rewrite repeat_N_succ, len_append, IHn. lia.
Qed.

Lemma htmlClean_append (a b : string) : htmlClean a -> htmlClean b -> htmlClean (a ++ b).
Proof.
  unfold htmlClean. rewrite !count_byte_append. intuition lia.
Qed.

Lemma htmlClean_repeat_string (s : string) (n : nat) :
  htmlClean s -> htmlClean (repeat_string s n).
Proof.
  unfold htmlClean. rewrite !count_byte_repeat_string. intuition nia.
Qed.

(** ** The configuration *)

Lemma applyOptions_app (o1 o2 : list ConfigOption) (c : Config) :
  applyOptions (o1 ++ o2) c = applyOptions o2 (applyOptions o1 c).
Proof. unfold applyOptions. apply fold_left_app. Qed.

Lemma validateConfig_valid (c : Config) :
  validateConfig (Some c) = None <-> validConfig c.
Proof.
  unfold validateConfig, validConfig.
  destruct (IndentSize c <? 0) eqn:E1; [zbool; split; [discriminate | lia] |].
  destruct (20 <? IndentSize c) eqn:E2; [zbool; split; [discriminate | lia] |].
  destruct (CompactDepth c <? 0) eqn:E3; zbool; split; try discriminate; try lia; auto.
Qed.

(** C9: [NewConfig] starts from the default [{2, false, 3}], applies the
    options in order, so that the last setter of a field is the one that
    counts, [WithIndentSize n] changing nothing for [n] outside 0..20; it
    returns the configuration so built when it passes [validateConfig] and
    the whole default otherwise; hence what it returns always passes
    [validateConfig]: [0 <= IndentSize <= 20] and [0 <= CompactDepth]. *)
Theorem NewConfig_spec :
  forall options : list ConfigOption,
    DefaultConfig = mkConfig 2 false 3 /\
    applyOptions [] DefaultConfig = DefaultConfig /\
    (forall option rest c,
        applyOptions (option :: rest) c = applyOptions rest (option c)) /\
    (forall n c, n < 0 \/ 20 < n -> WithIndentSize n c = c) /\
    (forall n c, 0 <= n <= 20 ->
                 WithIndentSize n c = mkConfig n (UseTab c) (CompactDepth c)) /\
    (forall earlier n, 0 <= n <= 20 ->
        IndentSize (applyOptions (earlier ++ [WithIndentSize n]) DefaultConfig) = n) /\
    (forall earlier n, 0 <= n ->
        CompactDepth (applyOptions (earlier ++ [WithCompactDepth n]) DefaultConfig) = n) /\
    (forall earlier,
        UseTab (applyOptions (earlier ++ [WithTabs]) DefaultConfig) = true /\
        UseTab (applyOptions (earlier ++ [WithSpaces]) DefaultConfig) = false) /\
    (validateConfig (Some (applyOptions options DefaultConfig)) = None ->
     NewConfig options = applyOptions options DefaultConfig) /\
    (validateConfig (Some (applyOptions options DefaultConfig)) <> None ->
     NewConfig options = DefaultConfig) /\
    validateConfig (Some (NewConfig options)) = None /\
    0 <= IndentSize (NewConfig options) <= 20 /\
    0 <= CompactDepth (NewConfig options).
Proof.
  intros options.
  assert (Hvalid : validateConfig (Some (NewConfig options)) = None).
  { unfold NewConfig.
    destruct (validateConfig (Some (applyOptions options DefaultConfig))) eqn:E;
      [reflexivity | exact E]. }
  repeat match goal with |- _ /\ _ => split end; try reflexivity.
  - intros n c Hn. unfold WithIndentSize.
    destruct ((0 <=? n) && (n <=? 20))%bool eqn:E; [zbool; lia | reflexivity].
  - intros n c Hn. unfold WithIndentSize.
    replace ((0 <=? n) && (n <=? 20))%bool with true; [reflexivity |].
    symmetry. apply andb_true_iff. split; [apply Z.leb_le | apply Z.leb_le]; lia.
  - intros earlier n Hn. rewrite applyOptions_app. cbn. unfold WithIndentSize.
    replace ((0 <=? n) && (n <=? 20))%bool with true; [reflexivity |].
    symmetry. apply andb_true_iff. split; [apply Z.leb_le | apply Z.leb_le]; lia.
  - intros earlier n Hn. rewrite applyOptions_app. cbn. unfold WithCompactDepth.
    replace (0 <=? n) with true; [reflexivity |]. symmetry. apply Z.leb_le. lia.
  - intros earlier. rewrite !applyOptions_app. cbn. split; reflexivity.
  - intros E. unfold NewConfig. rewrite E. reflexivity.
  - intros E. unfold NewConfig.
    destruct (validateConfig (Some (applyOptions options DefaultConfig)));
      [reflexivity | congruence].
  - exact Hvalid.
  - apply validateConfig_valid in Hvalid. apply Hvalid.
  - apply validateConfig_valid in Hvalid. apply Hvalid.
  - apply validateConfig_valid in Hvalid. apply Hvalid.
Qed.

(** ** Indentation *)

Lemma wrap64_small (z : Z) : - 2 ^ 63 <= z < 2 ^ 63 -> wrap64 z = z.
Proof.
  intros H. unfold wrap64. rewrite Z.mod_small; lia.
Qed.

Lemma len_repeat_string (s : string) (n : Z) :
  0 <= n -> len (repeat_string s (Z.to_nat n)) = n * len s.
Proof.
  intros H. unfold len. rewrite length_repeat_string. lia.
Qed.

(** C5: where the parser has a builder and a configuration, a depth and an
    indent size that are not negative and a product [depth * IndentSize]
    that fits an [int] (every reachable depth, 0..100, with every valid
    configuration, indent 0..20, is such a case), [writeIndent] appends
    exactly [depth] tab characters in tab mode and exactly
    [depth * IndentSize] spaces in space mode, and in space mode returns
    an error, writing nothing, when [depth * IndentSize] exceeds 10000;
    [writeNewlineAndIndent] writes a line feed and then that prefix. *)
Theorem writeIndent_width :
  forall (p : TokenParser) (b : string) (c : Config),
    builder p = Some b -> config p = Some c ->
    0 <= depth p -> 0 <= IndentSize c -> depth p * IndentSize c < 2 ^ 63 ->
    (UseTab c = true ->
     let indent := repeat_string tab (Z.to_nat (depth p)) in
     writeIndent p = Ok tt (set_builder (Some (b ++ indent)) p) /\
     writeNewlineAndIndent p = Ok tt (set_builder (Some ((b ++ newline) ++ indent)) p) /\
     len indent = depth p /\
     Z.of_nat (count_byte (byte_of 9) indent) = depth p) /\
    (UseTab c = false -> depth p * IndentSize c <= 10000 ->
     let indent := repeat_string " " (Z.to_nat (depth p * IndentSize c)) in
     writeIndent p = Ok tt (set_builder (Some (b ++ indent)) p) /\
     writeNewlineAndIndent p = Ok tt (set_builder (Some ((b ++ newline) ++ indent)) p) /\
     len indent = depth p * IndentSize c /\
     Z.of_nat (count_byte " " indent) = depth p * IndentSize c) /\
    (UseTab c = false -> 10000 < depth p * IndentSize c ->
     writeIndent p
     = Err (NewFormatError "indentation too large (exceeds 10000 characters)") p).
Proof.
  intros p b c Hb Hc Hd Hi Hfit.
  destruct p as [d st b0 c0 fe ek il]. cbn in *. subst b0 c0.
  assert (Hw : wrap64 (d * IndentSize c) = d * IndentSize c)
    by (apply wrap64_small; nia).
  assert (Hd' : (d <? 0) = false) by (apply Z.ltb_ge; lia).
  split; [| split].
  - intros Ht. cbv zeta. repeat split.
    + unfold_engine. cbn. rewrite Hd'. cbn. rewrite Ht. unfold strings_Repeat.
      rewrite Hd'. reflexivity.
    + unfold_engine. cbn. rewrite Hd'. cbn. rewrite Ht. unfold strings_Repeat.
      rewrite Hd'. reflexivity.
    + rewrite len_repeat_string by lia. change (len tab) with 1. lia.
    + rewrite count_byte_repeat_string. cbn. lia.
  - intros Ht Hle. cbv zeta.
    assert (Hbig : (10000 <? d * IndentSize c) = false) by (apply Z.ltb_ge; lia).
    assert (Hneg : (d * IndentSize c <? 0) = false) by (apply Z.ltb_ge; nia).
    repeat split.
    + unfold_engine. cbn. rewrite Hd'. cbn. rewrite Ht, Hw, Hbig.
      unfold strings_Repeat. rewrite Hneg. reflexivity.
    + unfold_engine. cbn. rewrite Hd'. cbn. rewrite Ht, Hw, Hbig.
      unfold strings_Repeat. rewrite Hneg. reflexivity.
    + rewrite len_repeat_string by nia. change (len " ") with 1. lia.
    + rewrite count_byte_repeat_string. cbn. nia.
  - intros Ht Hgt.
    assert (Hbig : (10000 <? d * IndentSize c) = true) by (apply Z.ltb_lt; lia).
    unfold_engine. cbn. rewrite Hd'. cbn. rewrite Ht, Hw, Hbig. reflexivity.
Qed.

Lemma writeIndent_width_witness :
  builder afterOpenBracket = Some "[" /\
  config afterOpenBracket = Some DefaultConfig /\
  0 <= depth afterOpenBracket /\
  0 <= IndentSize DefaultConfig /\
  depth afterOpenBracket * IndentSize DefaultConfig < 2 ^ 63 /\
  writeIndent afterOpenBracket = Ok tt (set_builder (Some ("[" ++ "  ")) afterOpenBracket).
Proof.
  repeat (split; [first [reflexivity | cbn; lia] |]).
  pose proof (writeIndent_width afterOpenBracket "[" DefaultConfig eq_refl eq_refl
                                ltac:(cbn; lia) ltac:(cbn; lia) ltac:(cbn; lia))
    as (_ & Hspaces & _).
  exact (proj1 (Hspaces eq_refl ltac:(cbn; lia))).
Defined.

(** ** The loop of [Format] *)

Lemma tokenLoop_returned marshal tokens ending n p result err :
  tokenLoop marshal tokens ending n p = Returned result err ->
  result = "" /\ err <> None.
Proof.
  revert n p. induction tokens as [| token rest IH]; intros n p; cbn.
  - destruct ending as [[e unread] |]; intros H; inversion H; split; congruence.
  - destruct (10000 <? n + 1).
    + intros H; inversion H; split; congruence.
    + destruct (processToken marshal token p) as [a p' | e p' | v p'].
      * apply IH.
      * intros H; inversion H; split; congruence.
      * discriminate.
Qed.

Lemma tokenLoop_broke marshal tokens ending n p n' p' :
  tokenLoop marshal tokens ending n p = Broke n' p' ->
  ending = None /\ n' = n + Z.of_nat (List.length tokens) /\
  runTokens marshal tokens p = Ok tt p'.
Proof.
  revert n p. induction tokens as [| token rest IH]; intros n p; cbn.
  - destruct ending as [[e unread] |]; intros H; inversion H; subst.
    repeat split. lia.
  - destruct (10000 <? n + 1); [discriminate |].
    unfold bind.
    destruct (processToken marshal token p) as [a p1 | e p1 | v p1]; try discriminate.
    intros H. apply IH in H. destruct H as (He & Hn & Hrun).
    repeat split; [exact He | lia | exact Hrun].
Qed.


(** C7: [Format] ends in one of two ways.  Either the error is [nil]: then
    the input was not empty, the decoder delivered at least one token and
    then the end of the input, every token was processed, the parser stands
    at depth 0 and the result is the whole content of the builder.  Or the
    error is not [nil] and the result is the empty string: on the empty
    input, an error of the decoder, too many tokens, an error of a token,
    a panic, unclosed containers and no token at all. *)
Theorem Format_result_or_error :
  forall (marshal : float -> string) (newDecoder : string -> Decoder)
         (f : Formatter) (jsonStr : string),
    (snd (Format marshal newDecoder f jsonStr) = None /\
     jsonStr <> "" /\
     dec_end (newDecoder jsonStr) = None /\
     dec_tokens (newDecoder jsonStr) <> [] /\
     exists p,
       runTokens marshal (dec_tokens (newDecoder jsonStr)) (newParser f jsonStr) = Ok tt p /\
       depth p = 0 /\
       fst (Format marshal newDecoder f jsonStr) = builderString p)
    \/
    (snd (Format marshal newDecoder f jsonStr) <> None /\
     fst (Format marshal newDecoder f jsonStr) = "").
Proof.
  intros marshal newDecoder f jsonStr. unfold Format, formatBody.
  destruct (String.eqb jsonStr "") eqn:Hempty.
  - right. cbn. split; congruence.
  - apply String.eqb_neq in Hempty.
    destruct (tokenLoop marshal (dec_tokens (newDecoder jsonStr))
                        (dec_end (newDecoder jsonStr)) 0 (newParser f jsonStr))
      as [result err | n p | v] eqn:Hloop.
    + apply tokenLoop_returned in Hloop. destruct Hloop as [-> Herr].
      right. cbn. split; [exact Herr | reflexivity].
    + apply tokenLoop_broke in Hloop. destruct Hloop as (Hend & Hn & Hrun).
      destruct (depth p =? 0) eqn:Hdepth; cbn.
      * destruct (n =? 0) eqn:Hzero; cbn.
        -- right. split; congruence.
        -- left. apply Z.eqb_eq in Hdepth. apply Z.eqb_neq in Hzero.
           repeat split; try assumption.
           ++ intros Hnil. rewrite Hnil in Hn. cbn in Hn. lia.
           ++ exists p. repeat split; assumption.
      * right. split; congruence.
    + right. destruct v; cbn; split; congruence.
Qed.

(** Two of the error paths, run: the empty input, and a panic of
    [strings.Repeat] under a negative indent size, which the deferred
    function turns into an error and an empty result. *)
Example Format_empty_input :
  forall marshal newDecoder f,
    Format marshal newDecoder f ""
    = ("", Some (NewFormatError "input JSON string is empty")).
Proof. reflexivity. Qed.

Example Format_recovers_panic :
  Format marshalSmall (decoderOf oneElementArray_tokens)
         (NewFormatter (Some (mkConfig (-2) false 3))) oneElementArray
  = ("", Some (NewFormatError "panic during formatting: strings: negative Repeat count")).
Proof. vm_compute. reflexivity. Qed.

(** ** The length guard of strings *)

Lemma rune_count_from_le (s : string) :
  forall skip, 0 <= rune_count_from skip s <= len s.
Proof.
  induction s as [| c rest IH]; intros skip.
  - unfold len. cbn. lia.
  - assert (Hlen : len (String c rest) = 1 + len rest)
      by (unfold len; cbn [String.length]; lia).
    rewrite Hlen. cbn [rune_count_from]. destruct skip as [| k].
    + specialize (IH (Nat.pred (snd (utf8_DecodeRuneInString (String c rest))))). lia.
    + specialize (IH k). lia.
Qed.

Lemma utf8_RuneCountInString_le (s : string) : utf8_RuneCountInString s <= len s.
Proof. apply rune_count_from_le. Qed.

Lemma rune_count_hiragana (s : string) :
  utf8_RuneCountInString (hiragana_a ++ s) = 1 + utf8_RuneCountInString s.
Proof. reflexivity. Qed.

Lemma rune_count_repeat_hiragana (n : N) :
  utf8_RuneCountInString (repeat_N hiragana_a n) = Z.of_N n.
Proof.
  induction n using N.peano_ind.
  - reflexivity.
  - rewrite repeat_N_succ, rune_count_hiragana, IHn. lia.
Qed.

Lemma handleString_too_long (value : string) (p : TokenParser) :
  1000000 < len value ->
  exists e, handleString value p = Err e p /\
            (builder p <> None -> config p <> None ->
             e = NewFormatError "string value too large (exceeds 1MB limit)").
Proof.
  intros Hlen. apply Z.ltb_lt in Hlen.
  destruct p as [d st b c fe ek il]. unfold_engine. cbn.
  destruct b, c; cbn; rewrite ?Hlen; eexists; (split; [reflexivity |]);
    intros; congruence.
Qed.

Lemma handleString_guard_silent (value : string) (p : TokenParser) e p' :
  len value <= 1000000 ->
  handleString value p = Err e p' ->
  ~ In "string value too large (exceeds 1MB limit)" (messages e) /\
  ~ In "string too large for escaping (exceeds 1MB limit)" (messages e).
Proof.
  intros Hlen. apply Z.ltb_ge in Hlen.
  destruct p as [d st b c fe ek il]. unfold_engine. cbn. rewrite ?Hlen.
  split_ifs; rewrite ?Hlen; cbn; split_ifs;
    intros H; try discriminate; inversion H; subst; cbn;
      split; intuition discriminate.
Qed.

(** C8, as the code has it: the guard of [handleString] measures the
    token with [len], in bytes.  A token longer than 1000000 bytes is
    rejected with an error and the parser, its output included, is left as
    it was; so is every token of more than 1000000 characters, which has
    at least as many bytes; a token of at most 1000000 bytes is never
    rejected by this guard, nor by the one [escapeString] repeats. *)
Theorem handleString_length_guard :
  forall (value : string) (p : TokenParser),
    (1000000 < len value ->
     exists e, handleString value p = Err e p /\
               (builder p <> None -> config p <> None ->
                e = NewFormatError "string value too large (exceeds 1MB limit)")) /\
    (1000000 < utf8_RuneCountInString value ->
     exists e, handleString value p = Err e p) /\
    (len value <= 1000000 ->
     forall e p', handleString value p = Err e p' ->
                  ~ In "string value too large (exceeds 1MB limit)" (messages e) /\
                  ~ In "string too large for escaping (exceeds 1MB limit)" (messages e)).
Proof.
  intros value p. repeat split.
  - apply handleString_too_long.
  - intros Hrunes.
    destruct (handleString_too_long value p) as (e & He & _).
    + pose proof (utf8_RuneCountInString_le value). lia.
    + exists e. exact He.
  - eapply handleString_guard_silent; eassumption.
  - eapply handleString_guard_silent; eassumption.
Qed.

(** A token of 333334 characters, fewer than 1000000, is rejected by the
    guard: its characters take three bytes each. *)
Lemma wideString_rejected :
  utf8_RuneCountInString wideString = 333334 /\
  len wideString = 1000002 /\
  handleString wideString (newParser (NewFormatter None) "x")
  = Err (NewFormatError "string value too large (exceeds 1MB limit)")
        (newParser (NewFormatter None) "x").
Proof.
  split; [| split].
  - unfold wideString. rewrite rune_count_repeat_hiragana. reflexivity.
  - unfold wideString. rewrite len_repeat_N. reflexivity.
  - destruct (handleString_too_long wideString (newParser (NewFormatter None) "x"))
      as (e & He & Hmsg).
    + unfold wideString. rewrite len_repeat_N. reflexivity.
    + rewrite He. f_equal. apply Hmsg; discriminate.
Qed.

(** ** What a token does to the parser *)

Lemma startObject_effect p p' :
  startObject p = Ok tt p' ->
  depth p' = depth p + 1 /\ inArray p' = (inArray p ++ [false])%list /\
  isFirstElement p' = true /\ expectingKey p' = true /\
  config p' = config p /\ inputLength p' = inputLength p /\
  builder p' <> None /\ config p <> None /\
  depth p < 100 /\ (expectingKey p && (0 <? depth p))%bool = false.
Proof.
  destruct p as [d st [b |] [c |] fe ek il]; unfold_engine; cbn;
  split_ifs; intros H; try discriminate; inversion H; subst; cbn; zbool;
    repeat split; try lia; try congruence; try discriminate.
Qed.

Lemma startArray_effect p p' :
  startArray p = Ok tt p' ->
  depth p' = depth p + 1 /\ inArray p' = (inArray p ++ [true])%list /\
  isFirstElement p' = true /\ expectingKey p' = false /\
  config p' = config p /\ inputLength p' = inputLength p /\
  builder p' <> None /\ config p <> None /\
  depth p < 100 /\ (expectingKey p && (0 <? depth p))%bool = false.
Proof.
  destruct p as [d st [b |] [c |] fe ek il]; unfold_engine; cbn;
  split_ifs; intros H; try discriminate; inversion H; subst; cbn; zbool;
    repeat split; try lia; try congruence; try discriminate.
Qed.

Lemma stack_top (st : list bool) (top : bool) :
  List.length st <> O -> last st false = top -> st = (removelast st ++ [top])%list.
Proof.
  intros Hlen Htop. subst top. apply app_removelast_last.
  destruct st; [cbn in Hlen; congruence | discriminate].
Qed.

Lemma endObject_effect p p' :
  endObject p = Ok tt p' ->
  depth p' = depth p - 1 /\ inArray p = (inArray p' ++ [false])%list /\
  isFirstElement p' = isFirstElement p /\ expectingKey p' = false /\
  config p' = config p /\ inputLength p' = inputLength p /\
  builder p' <> None /\ config p <> None /\ 0 < depth p.
Proof.
  destruct p as [d st [b |] [c |] fe ek il]; unfold_engine; cbn;
  split_ifs; intros H; try discriminate; inversion H; subst; cbn; zbool;
    repeat split; try lia; try congruence; try discriminate;
      try (apply stack_top; assumption).
Qed.

Lemma endArray_effect p p' :
  endArray p = Ok tt p' ->
  depth p' = depth p - 1 /\ inArray p = (inArray p' ++ [true])%list /\
  isFirstElement p' = isFirstElement p /\
  expectingKey p' = (if isInArray p' then expectingKey p else true) /\
  config p' = config p /\ inputLength p' = inputLength p /\
  builder p' <> None /\ config p <> None /\ 0 < depth p.
Proof.
  destruct p as [d st [b |] [c |] fe ek il]; unfold_engine; cbn;
  split_ifs; intros H; try discriminate; inversion H; subst; cbn; zbool;
    repeat split; try lia; try congruence; try discriminate;
      try (apply stack_top; assumption);
      try (cbn in *; congruence).
Qed.

Lemma handleString_effect value p p' :
  handleString value p = Ok tt p' ->
  scalarEffect p p' /\
  (expectingKey p = true ->
   expectingKey p' = false /\ isInArray p = false /\ depth p <> 0) /\
  (expectingKey p = false -> expectingKey p' = negb (isInArray p)).
Proof.
  unfold scalarEffect.
  destruct p as [d st [b |] [c |] fe ek il]; unfold_engine; cbn;
  split_ifs; intros H; try discriminate; inversion H; subst; cbn; zbool;
    repeat split; try lia; try congruence; try discriminate;
      try (cbn in *; congruence).
Qed.

Lemma handleNumber_effect marshal value p p' :
  handleNumber marshal value p = Ok tt p' ->
  scalarEffect p p' /\ expectingKey p = false /\ expectingKey p' = negb (isInArray p).
Proof.
  unfold scalarEffect.
  destruct p as [d st [b |] [c |] fe ek il]; unfold_engine; cbn;
  split_ifs; intros H; try discriminate; inversion H; subst; cbn; zbool;
    repeat split; try lia; try congruence; try discriminate;
      try (cbn in *; congruence).
Qed.

Lemma handleBoolean_effect value p p' :
  handleBoolean value p = Ok tt p' ->
  scalarEffect p p' /\ expectingKey p = false /\ expectingKey p' = negb (isInArray p).
Proof.
  unfold scalarEffect.
  destruct p as [d st [b |] [c |] fe ek il]; unfold_engine; cbn;
  split_ifs; intros H; try discriminate; inversion H; subst; cbn; zbool;
    repeat split; try lia; try congruence; try discriminate;
      try (cbn in *; congruence).
Qed.

Lemma handleNull_effect p p' :
  handleNull p = Ok tt p' ->
  scalarEffect p p' /\ expectingKey p = false /\ expectingKey p' = negb (isInArray p).
Proof.
  unfold scalarEffect.
  destruct p as [d st [b |] [c |] fe ek il]; unfold_engine; cbn;
  split_ifs; intros H; try discriminate; inversion H; subst; cbn; zbool;
    repeat split; try lia; try congruence; try discriminate;
      try (cbn in *; congruence).
Qed.

Lemma processToken_cases marshal token p p' :
  processToken marshal token p = Ok tt p' ->
  0 <= depth p <= 100 /\
  match token with
  | TDelim d =>
    (d = LBrace /\ startObject p = Ok tt p') \/
    (d = RBrace /\ endObject p = Ok tt p') \/
    (d = LBracket /\ startArray p = Ok tt p') \/
    (d = RBracket /\ endArray p = Ok tt p')
  | TString v => handleString v p = Ok tt p'
  | TFloat64 v => handleNumber marshal v p = Ok tt p'
  | TBool v => handleBoolean v p = Ok tt p'
  | TNil => handleNull p = Ok tt p'
  | TOther _ => False
  end.
Proof.
  unfold processToken, guard, bind, fail.
  destruct (depth p <? 0) eqn:E1; [discriminate |].
  destruct (100 <? depth p) eqn:E2; [discriminate |].
  zbool. intros H. split; [lia |].
  destruct token as [d | v | v | v | | name]; try exact H; [| discriminate].
  unfold handleDelimiter, fail in H.
  destruct (d =? LBrace) eqn:D1; [zbool; auto |].
  destruct (d =? RBrace) eqn:D2; [zbool; auto |].
  destruct (d =? LBracket) eqn:D3; [zbool; auto |].
  destruct (d =? RBracket) eqn:D4; [zbool; auto 6 | discriminate].
Qed.

Lemma processToken_balanced marshal token p p' :
  balanced p -> processToken marshal token p = Ok tt p' -> balanced p'.
Proof.
  unfold balanced. intros [Hlen Hrange] H.
  apply processToken_cases in H. destruct H as [_ H].
  destruct token as [d | v | v | v | | name].
  - destruct H as [[_ H] | [[_ H] | [[_ H] | [_ H]]]].
    + apply startObject_effect in H. destruct H as (Hd & Hs & _ & _ & _ & _ & _ & _ & Hlt & _).
      rewrite Hd, Hs, length_app. cbn. lia.
    + apply endObject_effect in H. destruct H as (Hd & Hs & _ & _ & _ & _ & _ & _ & Hgt).
      rewrite Hs, length_app in Hlen. cbn in Hlen. lia.
    + apply startArray_effect in H. destruct H as (Hd & Hs & _ & _ & _ & _ & _ & _ & Hlt & _).
      rewrite Hd, Hs, length_app. cbn. lia.
    + apply endArray_effect in H. destruct H as (Hd & Hs & _ & _ & _ & _ & _ & _ & Hgt).
      rewrite Hs, length_app in Hlen. cbn in Hlen. lia.
  - apply handleString_effect in H. destruct H as ((Hd & Hs & _) & _). rewrite Hd, Hs. lia.
  - apply handleNumber_effect in H. destruct H as ((Hd & Hs & _) & _). rewrite Hd, Hs. lia.
  - apply handleBoolean_effect in H. destruct H as ((Hd & Hs & _) & _). rewrite Hd, Hs. lia.
  - apply handleNull_effect in H. destruct H as ((Hd & Hs & _) & _). rewrite Hd, Hs. lia.
  - contradiction.
Qed.

Lemma reachable_balanced marshal f jsonStr p :
  reachable marshal f jsonStr p -> balanced p.
Proof.
  induction 1 as [| p token p' _ IH Hstep].
  - unfold balanced. cbn. lia.
  - eapply processToken_balanced; eassumption.
Qed.

Lemma runTokens_reachable marshal f jsonStr tokens :
  forall p p',
    reachable marshal f jsonStr p ->
    runTokens marshal tokens p = Ok tt p' ->
    reachable marshal f jsonStr p'.
Proof.
  induction tokens as [| token rest IH]; intros p p' Hp Hrun; cbn in Hrun.
  - inversion Hrun; subst. exact Hp.
  - unfold bind in Hrun.
    destruct (processToken marshal token p) as [[] p1 | e p1 | v p1] eqn:Hstep;
      try discriminate.
    eapply IH; [| exact Hrun]. eapply reach_token; eassumption.
Qed.

(** C4: in every state of a format operation the stack [inArray] has as
    many tags as [depth] says and [0 <= depth <= 100]; a token processed
    without error keeps it so: an opening delimiter pushes its one tag and
    adds one to the depth, a closing delimiter pops one tag, its own, and
    takes one from the depth, and every other token leaves both as they
    are. *)
Theorem depth_matches_stack :
  forall (marshal : float -> string) (f : Formatter) (jsonStr : string) (p : TokenParser),
    reachable marshal f jsonStr p ->
    balanced p /\
    (forall tokens p', runTokens marshal tokens p = Ok tt p' -> balanced p') /\
    (forall token p',
        processToken marshal token p = Ok tt p' ->
        balanced p' /\
        (token = TDelim LBrace ->
         depth p' = depth p + 1 /\ inArray p' = (inArray p ++ [false])%list) /\
        (token = TDelim LBracket ->
         depth p' = depth p + 1 /\ inArray p' = (inArray p ++ [true])%list) /\
        (token = TDelim RBrace ->
         depth p' = depth p - 1 /\ inArray p = (inArray p' ++ [false])%list) /\
        (token = TDelim RBracket ->
         depth p' = depth p - 1 /\ inArray p = (inArray p' ++ [true])%list) /\
        (~ isOpener token -> ~ isCloser token ->
         depth p' = depth p /\ inArray p' = inArray p)).
Proof.
  intros marshal f jsonStr p Hreach.
  pose proof (reachable_balanced _ _ _ _ Hreach) as Hbal.
  split; [exact Hbal | split].
  - intros tokens p' Hrun.
    eapply reachable_balanced. eapply runTokens_reachable; eassumption.
  - intros token p' Hstep.
    split; [eapply processToken_balanced; eassumption |].
    apply processToken_cases in Hstep. destruct Hstep as [_ Hstep].
    unfold isOpener, isCloser.
    destruct token as [d | v | v | v | | name].
    + destruct Hstep as [[-> H] | [[-> H] | [[-> H] | [-> H]]]].
      * apply startObject_effect in H. destruct H as (Hd & Hs & _).
        repeat split; intros; try discriminate; try assumption; tauto.
      * apply endObject_effect in H. destruct H as (Hd & Hs & _).
        repeat split; intros; try discriminate; try assumption; tauto.
      * apply startArray_effect in H. destruct H as (Hd & Hs & _).
        repeat split; intros; try discriminate; try assumption; tauto.
      * apply endArray_effect in H. destruct H as (Hd & Hs & _).
        repeat split; intros; try discriminate; try assumption; tauto.
    + apply handleString_effect in Hstep. destruct Hstep as ((Hd & Hs & _) & _).
      repeat split; intros; try discriminate; assumption.
    + apply handleNumber_effect in Hstep. destruct Hstep as ((Hd & Hs & _) & _).
      repeat split; intros; try discriminate; assumption.
    + apply handleBoolean_effect in Hstep. destruct Hstep as ((Hd & Hs & _) & _).
      repeat split; intros; try discriminate; assumption.
    + apply handleNull_effect in Hstep. destruct Hstep as ((Hd & Hs & _) & _).
      repeat split; intros; try discriminate; assumption.
    + contradiction.
Qed.

Lemma depth_matches_stack_witness :
  reachable marshalSmall (NewFormatter None) "[]" afterOpenBracket /\
  balanced afterOpenBracket /\
  (forall tokens p', runTokens marshalSmall tokens afterOpenBracket = Ok tt p' -> balanced p') /\
  (forall token p',
      processToken marshalSmall token afterOpenBracket = Ok tt p' ->
      balanced p' /\
      (token = TDelim LBrace ->
       depth p' = depth afterOpenBracket + 1 /\
       inArray p' = (inArray afterOpenBracket ++ [false])%list) /\
      (token = TDelim LBracket ->
       depth p' = depth afterOpenBracket + 1 /\
       inArray p' = (inArray afterOpenBracket ++ [true])%list) /\
      (token = TDelim RBrace ->
       depth p' = depth afterOpenBracket - 1 /\
       inArray afterOpenBracket = (inArray p' ++ [false])%list) /\
      (token = TDelim RBracket ->
       depth p' = depth afterOpenBracket - 1 /\
       inArray afterOpenBracket = (inArray p' ++ [true])%list) /\
      (~ isOpener token -> ~ isCloser token ->
       depth p' = depth afterOpenBracket /\ inArray p' = inArray afterOpenBracket)).
Proof.
  assert (H : reachable marshalSmall (NewFormatter None) "[]" afterOpenBracket).
  { apply (reach_token marshalSmall (NewFormatter None) "[]"
                       (newParser (NewFormatter None) "[]") (TDelim LBracket)).
    - apply reach_start.
    - reflexivity. }
  split; [exact H |].
  exact (depth_matches_stack marshalSmall (NewFormatter None) "[]" afterOpenBracket H).
Defined.

(** ** The compact-rendering decision *)

Lemma processToken_depth marshal token p p' :
  processToken marshal token p = Ok tt p' ->
  depth p' = depth p + tokenDelta token /\ config p' = config p.
Proof.
  intros H. apply processToken_cases in H. destruct H as [_ H].
  destruct token as [d | v | v | v | | name]; cbn [tokenDelta].
  - destruct H as [[-> H] | [[-> H] | [[-> H] | [-> H]]]]; cbn.
    + apply startObject_effect in H. intuition lia.
    + apply endObject_effect in H. intuition lia.
    + apply startArray_effect in H. intuition lia.
    + apply endArray_effect in H. intuition lia.
  - apply handleString_effect in H. unfold scalarEffect in H. intuition lia.
  - apply handleNumber_effect in H. unfold scalarEffect in H. intuition lia.
  - apply handleBoolean_effect in H. unfold scalarEffect in H. intuition lia.
  - apply handleNull_effect in H. unfold scalarEffect in H. intuition lia.
  - contradiction.
Qed.

Lemma runTokens_depth marshal tokens :
  forall p p',
    runTokens marshal tokens p = Ok tt p' ->
    depth p' = depth p + nestingOf tokens /\ config p' = config p.
Proof.
  induction tokens as [| token rest IH]; intros p p' Hrun; cbn in *.
  - inversion Hrun; subst. split; [lia | reflexivity].
  - unfold bind in Hrun.
    destruct (processToken marshal token p) as [[] p1 | e p1 | v p1] eqn:Hstep;
      try discriminate.
    apply processToken_depth in Hstep. apply IH in Hrun.
    destruct Hstep, Hrun. split; [lia | congruence].
Qed.

Lemma compactAt_iff (c d : Z) : compactAt c d = true <-> 0 < c <= d.
Proof.
  unfold compactAt. rewrite andb_true_iff, Z.ltb_lt, Z.leb_le. tauto.
Qed.

(** C3, as the code has it: [shouldFormatCompact] returns
    [CompactDepth > 0 && depth >= CompactDepth] and changes nothing; with
    [CompactDepth = 0] (or below) it is false at every depth; and between
    two thresholds that are both at least 1, the higher one is true at a
    depth only if the lower one is: raising a positive [CompactDepth]
    never adds a compact container.  The depth the decision is taken at
    is the nesting of the tokens read so far, the same under every
    configuration. *)
Theorem shouldFormatCompact_threshold :
  (forall d st b c fe ek il,
      shouldFormatCompact (mkTokenParser d st b (Some c) fe ek il)
      = Ok ((0 <? CompactDepth c) && (CompactDepth c <=? d))
           (mkTokenParser d st b (Some c) fe ek il)) /\
  (forall c d, compactAt c d = ((0 <? c) && (c <=? d))%bool) /\
  (forall c d, c <= 0 -> compactAt c d = false) /\
  (forall c1 c2 d, 1 <= c1 -> c1 <= c2 -> compactAt c2 d = true -> compactAt c1 d = true) /\
  (forall c1 c2 d, 1 <= c1 -> c1 <= c2 -> compactAt c1 d = false -> compactAt c2 d = false) /\
  (forall marshal tokens p p',
      runTokens marshal tokens p = Ok tt p' ->
      depth p' = depth p + nestingOf tokens /\ config p' = config p).
Proof.
  split; [| split; [| split; [| split; [| split]]]];
    [reflexivity | reflexivity | | | | apply runTokens_depth].
  - intros c d Hc. unfold compactAt. replace (0 <? c) with false; [reflexivity |].
    symmetry. apply Z.ltb_ge. exact Hc.
  - intros c1 c2 d H1 H12 H. apply compactAt_iff in H. apply compactAt_iff. lia.
  - intros c1 c2 d H1 H12 H.
    destruct (compactAt c2 d) eqn:E; [| reflexivity].
    apply compactAt_iff in E. assert (compactAt c1 d = true) by (apply compactAt_iff; lia).
    congruence.
Qed.

(** Raising [CompactDepth] from 0 to 1 makes a container compact that was
    not: at depth 1 the decision is false under 0 and true under 1, and
    the array [[1]] goes from three lines to one. *)
Lemma compactDepth_zero_to_one :
  0 <= 1 /\
  compactAt 0 1 = false /\
  compactAt 1 1 = true /\
  Format marshalSmall (decoderOf oneElementArray_tokens)
         (NewFormatter (Some (mkConfig 2 false 0))) oneElementArray
  = ("[" ++ newline ++ "  1" ++ newline ++ "]", None) /\
  Format marshalSmall (decoderOf oneElementArray_tokens)
         (NewFormatter (Some (mkConfig 2 false 1))) oneElementArray
  = ("[1]", None).
Proof.
  split; [lia |]. repeat split.
Qed.

(** ** The parser against the decoder's grammar *)


Lemma length_valueDone (stack : list frame) :
  List.length (valueDone stack) = List.length stack.
Proof. destruct stack as [| [] rest]; reflexivity. Qed.









(** ** Where the depth error comes from *)











Lemma tokenLoop_overflow marshal pre rest ending :
  forall n p p',
    runTokens marshal pre p = Ok tt p' ->
    10000 <= n + Z.of_nat (List.length pre) -> n <= 10000 -> rest <> [] ->
    tokenLoop marshal (pre ++ rest) ending n p = Returned "" (Some tooManyTokens).
Proof.
  induction pre as [| token pre IH]; intros n p p' Hrun Hlen Hn Hrest; cbn in *.
  - destruct rest as [| token rest]; [congruence |]. cbn.
    replace (10000 <? n + 1) with true by (symmetry; apply Z.ltb_lt; lia).
    reflexivity.
  - destruct (10000 <? n + 1) eqn:E; [reflexivity |]. zbool.
    unfold bind in Hrun.
    destruct (processToken marshal token p) as [[] p1 | e p1 | v p1]; try discriminate.
    eapply IH; [exact Hrun | lia | lia | exact Hrest].
Qed.


(** ** Scenarios *)

(** C1, as the code has it: for the input of scenario 1, read by the
    decoder as its thirteen tokens, with the numbers 1 and 2 marshalled as
    [1] and [2], [Format] under the default configuration returns no error
    and the text in which the opening bracket of the array follows the key
    on the same line, [startArray] writing no line break after a key; the
    two inner objects, at depth 3, are each on one line. *)
Theorem scenario1_default_layout :
  forall (marshal : float -> string) (newDecoder : string -> Decoder),
    newDecoder scenario1 = {| dec_tokens := scenario1_tokens; dec_end := None |} ->
    marshal 1%float = "1" ->
    marshal 2%float = "2" ->
    Format marshal newDecoder (NewFormatter (Some DefaultConfig)) scenario1
    = (scenario1_output, None).
Proof.
  intros marshal newDecoder Hdec H1 H2.
  unfold Format, formatBody. rewrite Hdec.
  vm_compute. rewrite H1, H2. reflexivity.
Qed.

Lemma scenario1_default_layout_witness :
  decoderOf scenario1_tokens scenario1
  = {| dec_tokens := scenario1_tokens; dec_end := None |} /\
  marshalSmall 1%float = "1" /\
  marshalSmall 2%float = "2" /\
  Format marshalSmall (decoderOf scenario1_tokens) (NewFormatter (Some DefaultConfig)) scenario1
  = (scenario1_output, None).
Proof.
  split; [reflexivity | split; [reflexivity | split; [reflexivity |]]].
  apply (scenario1_default_layout marshalSmall (decoderOf scenario1_tokens));
    reflexivity.
Defined.

(** The claimed layout of scenario 1 is not what [Format] returns. *)
Lemma scenario1_bracket_not_below :
  ~ (forall (marshal : float -> string) (newDecoder : string -> Decoder),
        newDecoder scenario1 = {| dec_tokens := scenario1_tokens; dec_end := None |} ->
        marshal 1%float = "1" ->
        marshal 2%float = "2" ->
        Format marshal newDecoder (NewFormatter (Some DefaultConfig)) scenario1
        = (scenario1_bracket_below, None)).
Proof.
  intros H.
  specialize (H marshalSmall (decoderOf scenario1_tokens) eq_refl eq_refl eq_refl).
  vm_compute in H. discriminate H.
Qed.

(** C2, on the code: [endObject] leaves [expectingKey] false whatever the
    enclosing container is, so the key that follows an object value is
    taken for a value and the value after it is refused. *)
Theorem sibling_key_after_object_rejected :
  forall marshal : float -> string,
    (forall p p', endObject p = Ok tt p' -> expectingKey p' = false) /\
    (exists p,
        runTokens marshal (firstn 6 siblingAfterObject_tokens)
                  (newParser (NewFormatter (Some DefaultConfig)) siblingAfterObject)
        = Ok tt p /\
        depth p = 1 /\ inArray p = [false] /\ expectingKey p = false) /\
    Format marshal (decoderOf siblingAfterObject_tokens)
           (NewFormatter (Some DefaultConfig)) siblingAfterObject
    = ("", Some (NewFormatError "malformed JSON: unexpected number, expected object key")).
Proof.
  intros marshal. split; [| split].
  - intros p p' H. apply endObject_effect in H. apply H.
  - eexists. split; [vm_compute; reflexivity | repeat split].
  - vm_compute. reflexivity.
Qed.

(** ** String escaping *)

Lemma escape_ascii_clean (c : ascii) : htmlClean (escape_ascii c).
Proof.
  destruct c as [[] [] [] [] [] [] [] []]; vm_compute; repeat split.
Qed.

Lemma high_byte_not_html (c : ascii) (s : string) :
  128 <= byte_val c -> htmlClean s -> htmlClean (String c s).
Proof.
  unfold htmlClean.
  destruct c as [[] [] [] [] [] [] [] []]; cbn; intros H; try lia; tauto.
Qed.

Lemma utf8_first_range b sz lo hi :
  utf8_first b = Some (sz, lo, hi) -> 128 <= lo.
Proof.
  unfold utf8_first.
  repeat match goal with
         | |- context [if ?c then _ else _] => destruct c
         end; intros H; inversion H; lia.
Qed.

Lemma decode_high c0 r0 r size :
  utf8_DecodeRuneInString (String c0 r0) = (r, size) ->
  128 <= byte_val c0 ->
  ((r =? RuneError) && (size =? 1)%nat)%bool = false ->
  highBytes (Nat.pred size) r0.
Proof.
  unfold utf8_DecodeRuneInString. intros H Hhigh Herr.
  destruct (byte_val c0 <? 128) eqn:E0; [zbool; lia |].
  destruct (utf8_first (byte_val c0)) as [[[sz lo] hi] |] eqn:Ef;
    [| inversion H; subst; discriminate].
  apply utf8_first_range in Ef.
  destruct r0 as [| c1 r1]; [inversion H; subst; discriminate |].
  destruct ((byte_val c1 <? lo) || (hi <? byte_val c1))%bool eqn:E1;
    [inversion H; subst; discriminate |].
  zbool.
  destruct (sz <=? 2)%nat; [inversion H; subst; cbn; lia |].
  destruct r1 as [| c2 r2]; [inversion H; subst; discriminate |].
  destruct (is_cont (byte_val c2)) eqn:E2; cbn in H;
    [| inversion H; subst; discriminate].
  unfold is_cont in E2. zbool.
  destruct (sz <=? 3)%nat; [inversion H; subst; cbn; lia |].
  destruct r2 as [| c3 r3]; [inversion H; subst; discriminate |].
  destruct (is_cont (byte_val c3)) eqn:E3; cbn in H;
    [| inversion H; subst; discriminate].
  unfold is_cont in E3. zbool.
  inversion H; subst; cbn; lia.
Qed.

Lemma appendString_from_clean (src : string) :
  forall m, pendingOk m src -> htmlClean (appendString_from m src).
Proof.
  induction src as [| c rest IH]; intros m Hm.
  - cbn. repeat split.
  - assert (Hfresh : htmlClean (appendString_from (Copy 0) (String c rest))
                     /\ True).
    { split; [| exact I]. cbn [appendString_from].
      destruct (byte_val c <? 128) eqn:E.
      - apply htmlClean_append; [apply escape_ascii_clean | apply IH; exact I].
      - zbool.
        destruct (utf8_DecodeRuneInString (String c rest)) as [r size] eqn:Hdec.
        destruct ((r =? RuneError) && (size =? 1)%nat)%bool eqn:Herr.
        + apply htmlClean_append; [repeat split |].
          apply htmlClean_append; [repeat split | apply IH; exact I].
        + pose proof (decode_high _ _ _ _ Hdec E Herr) as Hhigh.
          destruct ((r =? 8232) || (r =? 8233))%bool eqn:Hsep.
          * apply htmlClean_append; [repeat split |].
            apply htmlClean_append; [repeat split |].
            apply htmlClean_append; [| apply IH; exact Hhigh].
            apply orb_true_iff in Hsep. destruct Hsep as [Hs | Hs]; zbool; subst r;
              repeat split.
          * apply high_byte_not_html; [lia | apply IH; exact Hhigh]. }
    destruct m as [[| k] | [| k]]; cbn in Hm.
    + apply Hfresh.
    + cbn [appendString_from]. destruct Hm as [Hc Hk].
      apply high_byte_not_html; [exact Hc | apply IH; exact Hk].
    + apply Hfresh.
    + cbn [appendString_from]. destruct Hm as [Hc Hk]. apply IH. exact Hk.
Qed.

Lemma json_escape_clean (s : string) : htmlClean (json_escape s).
Proof. apply appendString_from_clean. exact I. Qed.

Lemma decode_app_ascii a s1 c s2 :
  byte_val c < 128 ->
  utf8_DecodeRuneInString (String a (s1 ++ String c s2))
  = utf8_DecodeRuneInString (String a s1).
Proof.
  intros Hc. unfold utf8_DecodeRuneInString.
  destruct (byte_val a <? 128); [reflexivity |].
  destruct (utf8_first (byte_val a)) as [[[sz lo] hi] |] eqn:Ef; [| reflexivity].
  apply utf8_first_range in Ef.
  assert (Hnot : is_cont (byte_val c) = false).
  { unfold is_cont. apply andb_false_iff. left. apply Z.leb_gt. lia. }
  destruct s1 as [| c1 s1]; cbn [append].
  { replace (byte_val c <? lo) with true by (symmetry; apply Z.ltb_lt; lia).
    reflexivity. }
  destruct ((byte_val c1 <? lo) || (hi <? byte_val c1))%bool; [reflexivity |].
  destruct (sz <=? 2)%nat; [reflexivity |].
  destruct s1 as [| c2 s1]; cbn [append].
  { rewrite Hnot. reflexivity. }
  destruct (negb (is_cont (byte_val c2))); [reflexivity |].
  destruct (sz <=? 3)%nat; [reflexivity |].
  destruct s1 as [| c3 s1]; cbn [append].
  { rewrite Hnot. reflexivity. }
  reflexivity.
Qed.

Lemma appendString_from_app (s1 : string) :
  forall m c s2,
    byte_val c < 128 ->
    pendingOk m (s1 ++ String c s2) ->
    appendString_from m (s1 ++ String c s2)
    = appendString_from m s1 ++ escape_ascii c ++ appendString_from (Copy 0) s2.
Proof.
  induction s1 as [| a s1 IH]; intros m c s2 Hc Hm; cbn [append].
  - assert (Hlt : (byte_val c <? 128) = true) by (apply Z.ltb_lt; exact Hc).
    destruct m as [[| k] | [| k]]; cbn in Hm; try lia;
      cbn [appendString_from append]; rewrite Hlt; reflexivity.
  - assert (Hfresh :
              appendString_from (Copy 0) (String a (s1 ++ String c s2))
              = appendString_from (Copy 0) (String a s1)
                ++ escape_ascii c ++ appendString_from (Copy 0) s2).
    { cbn [appendString_from]. rewrite decode_app_ascii by exact Hc.
      destruct (byte_val a <? 128) eqn:Ea.
      - rewrite (IH (Copy 0)) by (exact Hc || exact I). rewrite append_assoc. reflexivity.
      - zbool.
        destruct (utf8_DecodeRuneInString (String a s1)) as [r size] eqn:Hdec.
        destruct ((r =? RuneError) && (size =? 1)%nat)%bool eqn:Herr.
        + rewrite (IH (Copy 0)) by (exact Hc || exact I).
          rewrite !append_assoc. reflexivity.
        + assert (Hhigh : highBytes (Nat.pred size) (s1 ++ String c s2)).
          { rewrite <- (decode_app_ascii a s1 c s2 Hc) in Hdec.
            eapply decode_high; eassumption. }
          destruct ((r =? 8232) || (r =? 8233))%bool.
          * rewrite (IH (Pass (Nat.pred size))) by (exact Hc || exact Hhigh).
            rewrite !append_assoc. reflexivity.
          * rewrite (IH (Copy (Nat.pred size))) by (exact Hc || exact Hhigh).
            reflexivity. }
    destruct m as [[| k] | [| k]]; cbn in Hm.
    + exact Hfresh.
    + destruct Hm as [_ Hk]. cbn [appendString_from].
      rewrite (IH (Copy k)) by (exact Hc || exact Hk). reflexivity.
    + exact Hfresh.
    + destruct Hm as [_ Hk]. cbn [appendString_from].
      rewrite (IH (Pass k)) by (exact Hc || exact Hk). reflexivity.
Qed.

Lemma json_escape_app (s1 s2 : string) (c : ascii) :
  byte_val c < 128 ->
  json_escape (s1 ++ String c s2) = json_escape s1 ++ escape_ascii c ++ json_escape s2.
Proof.
  intros Hc. apply appendString_from_app; [exact Hc | exact I].
Qed.

Lemma get_append_length (a : string) (c : ascii) (r : string) :
  String.get (String.length a) (a ++ String c r) = Some c.
Proof. induction a; cbn; auto. Qed.

Lemma substring_append (a b : string) :
  String.substring 0 (String.length a) (a ++ b) = a.
Proof.
  induction a as [| c a IH]; cbn.
  - destruct b; reflexivity.
  - rewrite IH. reflexivity.
Qed.

Lemma strip_quotes_marshal (s : string) :
  strip_quotes (json_Marshal_string s) = json_escape s.
Proof.
  unfold strip_quotes, json_Marshal_string.
  set (body := json_escape s).
  change (quote ++ body ++ quote) with (String (byte_of 34) (body ++ quote)).
  cbn [String.length]. rewrite length_append. cbn [String.length quote].
  replace (String.length body + 1)%nat with (S (String.length body)) by lia.
  cbn [Nat.leb String.get Nat.sub].
  rewrite Nat.sub_0_r.
  unfold quote at 1. rewrite get_append_length.
  cbn [andb]. change (byte_val (byte_of 34) =? 34) with true. cbn [andb].
  cbn [String.substring]. apply substring_append.
Qed.

Lemma escapeString_ok (s : string) (p : TokenParser) :
  len s <= 1000000 -> escapeString s p = Ok (json_escape s) p.
Proof.
  intros H. unfold escapeString.
  replace (1000000 <? len s) with false by (symmetry; apply Z.ltb_ge; exact H).
  unfold ret. rewrite strip_quotes_marshal. reflexivity.
Qed.

Lemma htmlClean_quote : htmlClean quote.
Proof. repeat split. Qed.

Lemma htmlClean_cons (c : ascii) (s : string) :
  htmlClean (String c "") -> htmlClean s -> htmlClean (String c s).
Proof. intros Hc Hs. apply (htmlClean_append (String c "") s); assumption. Qed.

Lemma mid_here (json post : string) :
  exists pre post',
    quote ++ json ++ quote ++ post = pre ++ quote ++ json ++ quote ++ post'.
Proof. exists "", post. reflexivity. Qed.

Lemma mid_here_end (json : string) :
  exists pre post', quote ++ json ++ quote = pre ++ quote ++ json ++ quote ++ post'.
Proof. exists "", "". rewrite append_nil_r. reflexivity. Qed.

Lemma mid_later (x rest json : string) :
  (exists pre post, rest = pre ++ quote ++ json ++ quote ++ post) ->
  exists pre post, x ++ rest = pre ++ quote ++ json ++ quote ++ post.
Proof.
  intros (pre & post & ->). exists (x ++ pre), post. rewrite append_assoc. reflexivity.
Qed.

Lemma mid_later_char (c : ascii) (rest json : string) :
  (exists pre post, rest = pre ++ quote ++ json ++ quote ++ post) ->
  exists pre post, String c rest = pre ++ quote ++ json ++ quote ++ post.
Proof.
  intros (pre & post & ->). exists (String c pre), post. reflexivity.
Qed.

Local Opaque quote.

Ltac clean_text :=
  repeat first [ apply htmlClean_append
               | apply htmlClean_repeat_string
               | apply json_escape_clean
               | apply htmlClean_quote
               | apply htmlClean_cons ];
  try (repeat split; reflexivity).

Ltac find_mid :=
  repeat first [ apply mid_here | apply mid_here_end
               | apply mid_later | apply mid_later_char ].

Ltac open_repeat :=
  repeat match goal with
         | H : (if ?c then None else Some _) = Some _ |- _ =>
           destruct c; [discriminate H | inversion H; subst; clear H]
         end.

Lemma handleString_writes value p p' :
  handleString value p = Ok tt p' ->
  exists b written,
    builder p = Some b /\ builder p' = Some (b ++ written) /\
    htmlClean written /\
    exists pre post, written = pre ++ quote ++ json_escape value ++ quote ++ post.
Proof.
  destruct p as [d st [b |] [c |] fe ek il]; unfold_engine; unfold strings_Repeat;
    cbn; split_ifs; intros H; try discriminate; inversion H; subst; cbn;
      open_repeat;
      exists b; rewrite ?strip_quotes_marshal, ?append_assoc; cbn [append];
        eexists; (split; [reflexivity |]); (split; [reflexivity |]);
          (split; [clean_text | find_mid]).
Qed.

Local Transparent quote.

(** C10: [escapeString] hands the string to [json.Marshal] and takes the
    quotes off, which leaves the escaped body; [json.Marshal] writes [<],
    [>] and [&] as the escapes of U+003C, U+003E and U+0026 wherever they
    stand in a string, so the body has none of the three as a literal
    byte; and what [handleString] appends for a string token, key or
    value, is free of the three bytes and holds the escaped body between
    two quotes. *)
Theorem html_characters_escaped :
  (forall s p, len s <= 1000000 ->
               escapeString s p = Ok (strip_quotes (json_Marshal_string s)) p /\
               strip_quotes (json_Marshal_string s) = json_escape s) /\
  (forall s1 s2,
      json_escape (s1 ++ "<" ++ s2) = json_escape s1 ++ (backslash ++ "u003c") ++ json_escape s2 /\
      json_escape (s1 ++ ">" ++ s2) = json_escape s1 ++ (backslash ++ "u003e") ++ json_escape s2 /\
      json_escape (s1 ++ "&" ++ s2) = json_escape s1 ++ (backslash ++ "u0026") ++ json_escape s2) /\
  (forall s, htmlClean (json_escape s)) /\
  (forall value p p',
      handleString value p = Ok tt p' ->
      exists b written,
        builder p = Some b /\ builder p' = Some (b ++ written) /\
        htmlClean written /\
        exists pre post, written = pre ++ quote ++ json_escape value ++ quote ++ post) /\
  (forall marshal,
      Format marshal (decoderOf htmlArray_tokens) (NewFormatter (Some DefaultConfig)) htmlArray
      = ("[" ++ newline ++ "  " ++ quote ++ "a" ++ backslash ++ "u003cb" ++ backslash
             ++ "u003e" ++ backslash ++ "u0026c" ++ quote ++ newline ++ "]", None)).
Proof.
  split; [| split; [| split; [| split]]].
  - intros s p Hlen. split; [| apply strip_quotes_marshal].
    rewrite strip_quotes_marshal. apply escapeString_ok. exact Hlen.
  - intros s1 s2. repeat split.
    + apply (json_escape_app s1 s2 "<"). cbn. lia.
    + apply (json_escape_app s1 s2 ">"). cbn. lia.
    + apply (json_escape_app s1 s2 "&"). cbn. lia.
  - apply json_escape_clean.
  - apply handleString_writes.
  - intros marshal. vm_compute. reflexivity.
Qed.

(** ** More on the configuration *)

Lemma builtinOption_valid (option : ConfigOption) (c : Config) :
  builtinOption option -> validConfig c -> validConfig (option c).
Proof.
  unfold validConfig. intros Hb Hc. destruct Hb as [size | | | depth]; cbn.
  - unfold WithIndentSize. destruct ((0 <=? size) && (size <=? 20))%bool eqn:E; cbn.
    + zbool. lia.
    + exact Hc.
  - exact Hc.
  - exact Hc.
  - unfold WithCompactDepth. destruct (0 <=? depth) eqn:E; cbn.
    + zbool. lia.
    + exact Hc.
Qed.

Lemma applyOptions_builtin_valid (options : list ConfigOption) :
  forall c, Forall builtinOption options -> validConfig c ->
            validConfig (applyOptions options c).
Proof.
  induction options as [| option rest IH]; intros c Hall Hc; cbn.
  - exact Hc.
  - inversion Hall; subst. apply IH; [assumption |].
    apply builtinOption_valid; assumption.
Qed.

(** X1: with the options the package exports ([WithIndentSize],
    [WithTabs], [WithSpaces], [WithCompactDepth], whatever their
    arguments) [NewConfig] never falls back to the default: it returns the
    configuration the options build, and that configuration is valid. *)
Theorem NewConfig_builtin_no_fallback :
  forall options : list ConfigOption,
    Forall builtinOption options ->
    NewConfig options = applyOptions options DefaultConfig /\
    validConfig (NewConfig options).
Proof.
  intros options Hall.
  assert (Hv : validConfig (applyOptions options DefaultConfig)).
  { apply applyOptions_builtin_valid; [exact Hall |]. unfold validConfig. cbn. lia. }
  assert (Heq : NewConfig options = applyOptions options DefaultConfig).
  { unfold NewConfig. apply validateConfig_valid in Hv. rewrite Hv. reflexivity. }
  split; [exact Heq | rewrite Heq; exact Hv].
Qed.

Lemma NewConfig_builtin_no_fallback_witness :
  Forall builtinOption [WithIndentSize 4; WithTabs; WithCompactDepth 2; WithIndentSize 99] /\
  NewConfig [WithIndentSize 4; WithTabs; WithCompactDepth 2; WithIndentSize 99]
  = mkConfig 4 true 2.
Proof.
  assert (H : Forall builtinOption
                     [WithIndentSize 4; WithTabs; WithCompactDepth 2; WithIndentSize 99]).
  { repeat constructor. }
  split; [exact H |].
  exact (proj1 (NewConfig_builtin_no_fallback _ H)).
Defined.

(** X2: the exported options act on one field each, so two options on
    different fields can be applied in either order; [WithSpaces] undoes
    [WithTabs] and the other way round; and [WithCompactDepth] with a
    negative depth changes nothing. *)
Theorem options_commute :
  forall (c : Config) (size depth : Z),
    WithIndentSize size (WithCompactDepth depth c)
    = WithCompactDepth depth (WithIndentSize size c) /\
    WithIndentSize size (WithTabs c) = WithTabs (WithIndentSize size c) /\
    WithIndentSize size (WithSpaces c) = WithSpaces (WithIndentSize size c) /\
    WithCompactDepth depth (WithTabs c) = WithTabs (WithCompactDepth depth c) /\
    WithCompactDepth depth (WithSpaces c) = WithSpaces (WithCompactDepth depth c) /\
    WithSpaces (WithTabs c) = WithSpaces c /\
    WithTabs (WithSpaces c) = WithTabs c /\
    (depth < 0 -> WithCompactDepth depth c = c).
Proof.
  intros c size depth. unfold WithIndentSize, WithCompactDepth, WithTabs, WithSpaces.
  destruct ((0 <=? size) && (size <=? 20))%bool, (0 <=? depth) eqn:E; cbn;
    repeat split; intros; try reflexivity; zbool; lia.
Qed.

(** ** The text of errors *)

Lemma Error_ends_with_cause :
  forall e : error, endsWith (Error e) (Error (rootCause e)).
Proof.
  fix IH 1. intros [text | msg position [cause |]].
  - exists "". reflexivity.
  - destruct (IH cause) as [front Hfront]. cbn [Error rootCause].
    destruct (0 <? position).
    + exists (msg ++ " at position " ++ sprintf_d position ++ ": " ++ front).
      rewrite Hfront at 1. rewrite !append_assoc. reflexivity.
    + exists (msg ++ ": " ++ front).
      rewrite Hfront at 1. rewrite !append_assoc. reflexivity.
  - exists "". reflexivity.
Qed.

(** X3: the text of a [FormatError] starts with its message and, through
    every level of wrapping, ends with the text of the innermost error;
    the position is shown only when it is positive, so a position of zero
    or below reads as no position; and the constructors give
    [NewFormatError msg] the text [msg], [WrapFormatError msg e] the text
    [msg: ] followed by the text of [e], which [Unwrap] returns. *)
Theorem Error_text :
  forall (msg : string) (position : Z) (original : option error),
    startsWith (Error (FormatError msg position original)) msg /\
    endsWith (Error (FormatError msg position original))
             (Error (rootCause (FormatError msg position original))) /\
    (position <= 0 ->
     Error (FormatError msg position original) = Error (FormatError msg 0 original)) /\
    (0 < position ->
     startsWith (Error (FormatError msg position original))
                (msg ++ " at position " ++ sprintf_d position)) /\
    Error (NewFormatError msg) = msg /\
    Unwrap (NewFormatError msg) = None /\
    (forall e, Error (WrapFormatError msg e) = msg ++ ": " ++ Error e /\
               Unwrap (WrapFormatError msg e) = Some e /\
               Unwrap (WrapFormatErrorWithPosition msg position e) = Some e).
Proof.
  intros msg position original.
  split; [| split; [| split; [| split; [| split; [| split]]]]].
  - cbn [Error]. destruct (0 <? position), original as [cause |].
    + eexists. reflexivity.
    + eexists. reflexivity.
    + eexists. reflexivity.
    + exists "". symmetry. apply append_nil_r.
  - apply Error_ends_with_cause.
  - intros Hpos. cbn [Error]. replace (0 <? position) with false; [reflexivity |].
    symmetry. apply Z.ltb_ge. exact Hpos.
  - intros Hpos. cbn [Error]. replace (0 <? position) with true
      by (symmetry; apply Z.ltb_lt; exact Hpos).
    destruct original as [cause |].
    + exists (": " ++ Error cause). rewrite !append_assoc. reflexivity.
    + exists "". rewrite append_nil_r. reflexivity.
  - reflexivity.
  - reflexivity.
  - intros e. repeat split.
Qed.

(** ** The position of a decoder error *)

Lemma processToken_inputLength marshal token p p' :
  processToken marshal token p = Ok tt p' -> inputLength p' = inputLength p.
Proof.
  intros H. apply processToken_cases in H. destruct H as [_ H].
  destruct token as [d | v | v | v | | name].
  - destruct H as [[_ H] | [[_ H] | [[_ H] | [_ H]]]].
    + apply startObject_effect in H. tauto.
    + apply endObject_effect in H. tauto.
    + apply startArray_effect in H. tauto.
    + apply endArray_effect in H. tauto.
  - apply handleString_effect in H. unfold scalarEffect in H. tauto.
  - apply handleNumber_effect in H. unfold scalarEffect in H. tauto.
  - apply handleBoolean_effect in H. unfold scalarEffect in H. tauto.
  - apply handleNull_effect in H. unfold scalarEffect in H. tauto.
  - contradiction.
Qed.

Lemma runTokens_inputLength marshal tokens :
  forall p p', runTokens marshal tokens p = Ok tt p' -> inputLength p' = inputLength p.
Proof.
  induction tokens as [| token rest IH]; intros p p' Hrun; cbn in Hrun.
  - inversion Hrun. reflexivity.
  - unfold bind in Hrun.
    destruct (processToken marshal token p) as [[] p1 | e p1 | v p1] eqn:Hstep;
      try discriminate.
    apply processToken_inputLength in Hstep. apply IH in Hrun. congruence.
Qed.

(** Below the token limit the loop of [Format] is the run of the tokens. *)
Lemma tokenLoop_below_limit marshal tokens ending :
  forall n p,
    n + Z.of_nat (List.length tokens) <= 10000 ->
    tokenLoop marshal tokens ending n p
    = match runTokens marshal tokens p with
      | Ok _ p' =>
        match ending with
        | None => Broke (n + Z.of_nat (List.length tokens)) p'
        | Some (err, unread) =>
          Returned "" (Some (WrapFormatErrorWithPosition "invalid JSON input"
                                                         (calculatePosition p' unread) err))
        end
      | Err e _ => Returned "" (Some e)
      | Panic v _ => Panicked v
      end.
Proof.
  induction tokens as [| token rest IH]; intros n p Hn.
  - cbn. destruct ending as [[err unread] |]; [reflexivity |]. f_equal. lia.
  - cbn [tokenLoop runTokens List.length] in *. unfold bind.
    replace (10000 <? n + 1) with false by (symmetry; apply Z.ltb_ge; lia).
    destruct (processToken marshal token p) as [[] p1 | e p1 | v p1]; try reflexivity.
    rewrite IH by lia.
    destruct (runTokens marshal rest p1) as [[] p2 | e p2 | v p2]; try reflexivity.
    destruct ending as [[err unread] |]; [reflexivity |]. f_equal. lia.
Qed.

Lemma calculatePosition_range (p : TokenParser) (unread : Z) :
  0 <= inputLength p -> 0 <= calculatePosition p unread <= inputLength p.
Proof.
  intros H. unfold calculatePosition.
  destruct (inputLength p - unread <? 0) eqn:E1; [lia |].
  destruct (inputLength p <? inputLength p - unread) eqn:E2; zbool; lia.
Qed.

(** X4: when the decoder fails after tokens that were all processed (and
    within the token limit), [Format] returns the empty string and a
    [FormatError] with the message [invalid JSON input] that wraps the
    decoder's error; its position is the input's length less what the
    reader had left, clamped into [0 .. len(input)]: it is that difference
    itself when the reader had between 0 and [len(input)] bytes left. *)
Theorem Format_decoder_error :
  forall (marshal : float -> string) (newDecoder : string -> Decoder)
         (f : Formatter) (jsonStr : string) (err : error) (unread : Z) (p : TokenParser),
    jsonStr <> "" ->
    dec_end (newDecoder jsonStr) = Some (err, unread) ->
    runTokens marshal (dec_tokens (newDecoder jsonStr)) (newParser f jsonStr) = Ok tt p ->
    Z.of_nat (List.length (dec_tokens (newDecoder jsonStr))) <= 10000 ->
    exists position,
      Format marshal newDecoder f jsonStr
      = ("", Some (FormatError "invalid JSON input" position (Some err))) /\
      0 <= position <= len jsonStr /\
      (0 <= unread <= len jsonStr -> position = len jsonStr - unread) /\
      (len jsonStr < unread -> position = 0) /\
      (unread < 0 -> position = len jsonStr).
Proof.
  intros marshal newDecoder f jsonStr err unread p Hne Hend Hrun Hlen.
  assert (Hil : inputLength p = len jsonStr).
  { apply runTokens_inputLength in Hrun. exact Hrun. }
  exists (calculatePosition p unread). split; [| split].
  - unfold Format, formatBody. apply String.eqb_neq in Hne. rewrite Hne.
    rewrite tokenLoop_below_limit by lia. rewrite Hrun, Hend. reflexivity.
  - rewrite <- Hil. apply calculatePosition_range. rewrite Hil. apply len_nonneg.
  - unfold calculatePosition. rewrite Hil. pose proof (len_nonneg jsonStr).
    destruct (len jsonStr - unread <? 0) eqn:E1;
      destruct (len jsonStr <? len jsonStr - unread) eqn:E2; zbool;
        repeat split; intros; lia.
Qed.

Lemma Format_decoder_error_witness :
  "[1," <> "" /\
  dec_end (mkDecoder [TDelim LBracket; TFloat64 1] (Some (OtherError "unexpected EOF", 0)))
  = Some (OtherError "unexpected EOF", 0) /\
  exists position,
    Format marshalSmall
           (fun _ => mkDecoder [TDelim LBracket; TFloat64 1]
                               (Some (OtherError "unexpected EOF", 0)))
           (NewFormatter None) "[1,"
    = ("", Some (FormatError "invalid JSON input" position (Some (OtherError "unexpected EOF")))) /\
    position = 3.
Proof.
  split; [discriminate | split; [reflexivity |]].
  edestruct (Format_decoder_error
               marshalSmall
               (fun _ => mkDecoder [TDelim LBracket; TFloat64 1]
                                   (Some (OtherError "unexpected EOF", 0)))
               (NewFormatter None) "[1," (OtherError "unexpected EOF") 0)
    as (position & Hf & _ & Hpos & _).
  - discriminate.
  - reflexivity.
  - vm_compute. reflexivity.
  - cbn. lia.
  - exists position. split; [exact Hf |]. rewrite Hpos; [reflexivity | cbn; lia].
Defined.

(** ** Rejected tokens and panics under a valid configuration *)

(** The leaves of a method run on a parser with a builder and a valid
    configuration: no panic, and no error once something has changed. *)
Ltac atomic_leaves :=
  unfold_engine; unfold strings_Repeat; cbn;
  split_ifs;
  repeat match goal with
         | H : (if ?c then None else Some _) = _ |- _ =>
           destruct c eqn:?; try discriminate H
         end;
  zbool;
  repeat match goal with
         | H : context [wrap64 ?z] |- _ => rewrite (wrap64_small z) in H by nia
         end;
  try exact I; try reflexivity; try (exfalso; nia).

Section Atomic.

Variables (d : Z) (st : list bool) (b : string) (c : Config) (fe ek : bool) (il : Z).
Hypothesis Hdepth : 0 <= d <= 100.
Hypothesis Hindent : 0 <= IndentSize c <= 20.

Let p := mkTokenParser d st (Some b) (Some c) fe ek il.

Lemma startObject_settled : settled p (startObject p).
Proof. unfold settled, p. atomic_leaves. Qed.

Lemma startArray_settled : settled p (startArray p).
Proof. unfold settled, p. atomic_leaves. Qed.

Lemma endObject_settled : settled p (endObject p).
Proof. unfold settled, p. atomic_leaves. Qed.

Lemma endArray_settled : settled p (endArray p).
Proof. unfold settled, p. atomic_leaves. Qed.

Lemma handleString_settled value : settled p (handleString value p).
Proof. unfold settled, p. atomic_leaves. Qed.

Lemma handleNumber_settled marshal value : settled p (handleNumber marshal value p).
Proof. unfold settled, p. atomic_leaves. Qed.

Lemma handleBoolean_settled value : settled p (handleBoolean value p).
Proof. unfold settled, p. atomic_leaves. Qed.

Lemma handleNull_settled : settled p (handleNull p).
Proof. unfold settled, p. atomic_leaves. Qed.

Lemma processToken_settled_record marshal token : settled p (processToken marshal token p).
Proof.
  unfold processToken, guard, bind, fail, p. cbn [depth].
  destruct (d <? 0) eqn:E1; [exact eq_refl |]. cbn [depth].
  destruct (100 <? d) eqn:E2; [exact eq_refl |].
  destruct token as [delim | v | v | v | | name].
  - unfold handleDelimiter, fail.
    destruct (delim =? LBrace); [apply startObject_settled |].
    destruct (delim =? RBrace); [apply endObject_settled |].
    destruct (delim =? LBracket); [apply startArray_settled |].
    destruct (delim =? RBracket); [apply endArray_settled | exact eq_refl].
  - apply handleString_settled.
  - apply handleNumber_settled.
  - apply handleBoolean_settled.
  - apply handleNull_settled.
  - exact eq_refl.
Qed.

End Atomic.

Lemma processToken_settled marshal token p :
  ready p -> settled p (processToken marshal token p).
Proof.
  intros ([Hlen Hrange] & Hb & c & Hc & Hv).
  destruct p as [d st [b |] cfg fe ek il]; cbn in *; [| congruence].
  subst cfg. apply processToken_settled_record; [exact Hrange | apply Hv].
Qed.

(** X5: under a configuration that passes [validateConfig], a token never
    makes the parser panic, and a token that is refused leaves the parser
    exactly as it was: every check that can fail runs before anything is
    written or changed. *)
Theorem rejected_token_changes_nothing :
  forall (marshal : float -> string) (token : Token) (p : TokenParser),
    ready p ->
    (forall v p', processToken marshal token p <> Panic v p') /\
    (forall e p', processToken marshal token p = Err e p' -> p' = p).
Proof.
  intros marshal token p Hready.
  pose proof (processToken_settled marshal token p Hready) as H.
  destruct (processToken marshal token p) as [a p1 | e p1 | v p1]; cbn in H.
  - split; intros; discriminate.
  - split; intros; [discriminate | congruence].
  - contradiction.
Qed.

Lemma ready_afterOpenBracket : ready afterOpenBracket.
Proof.
  unfold ready, balanced, validConfig. cbn. repeat split; try lia; try discriminate.
  exists DefaultConfig. cbn. repeat split; lia.
Qed.

Lemma rejected_token_changes_nothing_witness :
  ready afterOpenBracket /\
  (forall e p', processToken marshalSmall (TDelim RBrace) afterOpenBracket = Err e p' ->
                p' = afterOpenBracket).
Proof.
  split; [exact ready_afterOpenBracket |].
  exact (proj2 (rejected_token_changes_nothing marshalSmall (TDelim RBrace)
                                               afterOpenBracket ready_afterOpenBracket)).
Defined.

Lemma processToken_ready marshal token p p' :
  ready p -> processToken marshal token p = Ok tt p' -> ready p'.
Proof.
  intros (Hbal & Hb & c & Hc & Hv) H. unfold ready.
  split; [eapply processToken_balanced; eassumption |].
  pose proof (processToken_depth _ _ _ _ H) as [_ Hcfg].
  split; [| exists c; split; [congruence | exact Hv]].
  apply processToken_cases in H. destruct H as [_ H].
  destruct token as [d | v | v | v | | name].
  - destruct H as [[_ H] | [[_ H] | [[_ H] | [_ H]]]].
    + apply startObject_effect in H. tauto.
    + apply endObject_effect in H. tauto.
    + apply startArray_effect in H. tauto.
    + apply endArray_effect in H. tauto.
  - apply handleString_effect in H. unfold scalarEffect in H. tauto.
  - apply handleNumber_effect in H. unfold scalarEffect in H. tauto.
  - apply handleBoolean_effect in H. unfold scalarEffect in H. tauto.
  - apply handleNull_effect in H. unfold scalarEffect in H. tauto.
  - contradiction.
Qed.

Lemma tokenLoop_no_panic marshal tokens ending :
  forall n p v, ready p -> tokenLoop marshal tokens ending n p <> Panicked v.
Proof.
  induction tokens as [| token rest IH]; intros n p v Hready; cbn.
  - destruct ending as [[err unread] |]; discriminate.
  - destruct (10000 <? n + 1); [discriminate |].
    pose proof (processToken_settled marshal token p Hready) as Hs.
    destruct (processToken marshal token p) as [[] p1 | e p1 | v1 p1] eqn:Hstep;
      cbn in Hs.
    + apply IH. eapply processToken_ready; eassumption.
    + discriminate.
    + contradiction.
Qed.

(** X6: with a formatter whose configuration passes [validateConfig] (one
    from [NewConfig] or [DefaultConfig], or [NewFormatter(nil)]), the body
    of [Format] always ends with a [return]: the deferred [recover] has no
    panic to convert, whatever the input and whatever the decoder
    delivers. *)
Theorem Format_never_panics :
  forall (marshal : float -> string) (newDecoder : string -> Decoder)
         (f : Formatter) (c : Config) (jsonStr : string),
    f_config f = Some c ->
    validateConfig (Some c) = None ->
    exists result err,
      formatBody marshal newDecoder f jsonStr = Return result err /\
      Format marshal newDecoder f jsonStr = (result, err).
Proof.
  intros marshal newDecoder f c jsonStr Hf Hvalid.
  apply validateConfig_valid in Hvalid.
  assert (Hready : ready (newParser f jsonStr)).
  { unfold ready, balanced. cbn. repeat split; try lia; try discriminate.
    exists c. split; assumption. }
  unfold Format, formatBody.
  destruct (String.eqb jsonStr ""); [eexists; eexists; split; reflexivity |].
  pose proof (fun v => tokenLoop_no_panic marshal (dec_tokens (newDecoder jsonStr))
                                          (dec_end (newDecoder jsonStr)) 0 _ v Hready)
    as Hnp.
  destruct (tokenLoop marshal (dec_tokens (newDecoder jsonStr))
                      (dec_end (newDecoder jsonStr)) 0 (newParser f jsonStr))
    as [result err | n p | v].
  - eexists; eexists; split; reflexivity.
  - destruct (negb (depth p =? 0)); [eexists; eexists; split; reflexivity |].
    destruct (n =? 0); eexists; eexists; split; reflexivity.
  - exfalso. apply (Hnp v). reflexivity.
Qed.

Lemma Format_never_panics_witness :
  f_config (NewFormatter None) = Some DefaultConfig /\
  validateConfig (Some DefaultConfig) = None /\
  exists result err,
    formatBody marshalSmall (decoderOf scenario1_tokens) (NewFormatter None) scenario1
    = Return result err /\
    Format marshalSmall (decoderOf scenario1_tokens) (NewFormatter None) scenario1
    = (result, err).
Proof.
  split; [reflexivity | split; [reflexivity |]].
  exact (Format_never_panics marshalSmall (decoderOf scenario1_tokens) (NewFormatter None)
                             DefaultConfig scenario1 eq_refl eq_refl).
Defined.

(** ** Streams: the token limit, the end of the input, balance *)

Lemma null_in_array marshal (b : string) (fe : bool) (il : Z) :
  exists b',
    processToken marshal TNil
                 (mkTokenParser 1 [true] (Some b) (Some DefaultConfig) fe false il)
    = Ok tt (mkTokenParser 1 [true] (Some b') (Some DefaultConfig) false false il).
Proof.
  destruct fe; eexists; reflexivity.
Qed.

Lemma nulls_in_array marshal (n : nat) :
  forall (b : string) (fe : bool) (il : Z),
    exists p, runTokens marshal (repeat TNil n)
                        (mkTokenParser 1 [true] (Some b) (Some DefaultConfig) fe false il)
              = Ok tt p.
Proof.
  induction n as [| n IH]; intros b fe il.
  - eexists. reflexivity.
  - destruct (null_in_array marshal b fe il) as [b' Hstep].
    destruct (IH b' false il) as [p Hrun].
    exists p. cbn [repeat runTokens]. unfold bind. rewrite Hstep. exact Hrun.
Qed.

(** X7: [Format] reads at most 10000 tokens.  When the decoder has a token
    left after 10000 that were processed, [Format] returns the empty string
    and the too-many-tokens error, whatever that token is; an input of
    exactly 10000 tokens that closes every container is formatted. *)
Theorem token_limit :
  forall (marshal : float -> string) (newDecoder : string -> Decoder)
         (f : Formatter) (jsonStr : string) (pre rest : list Token) (p : TokenParser),
    jsonStr <> "" ->
    dec_tokens (newDecoder jsonStr) = (pre ++ rest)%list ->
    Z.of_nat (List.length pre) = 10000 ->
    runTokens marshal pre (newParser f jsonStr) = Ok tt p ->
    (rest <> [] ->
     Format marshal newDecoder f jsonStr = ("", Some tooManyTokens)) /\
    (rest = [] -> dec_end (newDecoder jsonStr) = None -> depth p = 0 ->
     Format marshal newDecoder f jsonStr = (builderString p, None)).
Proof.
  intros marshal newDecoder f jsonStr pre rest p Hne Htokens Hlen Hrun.
  apply String.eqb_neq in Hne. unfold Format, formatBody. rewrite Hne, Htokens.
  split.
  - intros Hrest.
    rewrite (tokenLoop_overflow marshal pre rest _ 0 _ p Hrun) by (lia || exact Hrest).
    reflexivity.
  - intros -> Hend Hdepth. rewrite app_nil_r.
    rewrite tokenLoop_below_limit by lia. rewrite Hrun, Hend, Hdepth.
    cbn. rewrite Hlen. reflexivity.
Qed.

Lemma token_limit_witness :
  Format marshalSmall (fun _ => mkDecoder (TDelim LBracket :: nulls 10000) None)
         (NewFormatter None) "[null, ...]"
  = ("", Some tooManyTokens).
Proof.
  destruct (nulls_in_array marshalSmall (Z.to_nat 9999) "[" true 11) as [p Hrun].
  refine (proj1 (token_limit marshalSmall
                             (fun _ => mkDecoder (TDelim LBracket :: nulls 10000) None)
                             (NewFormatter None) "[null, ...]"
                             (TDelim LBracket :: nulls 9999) [TNil] p _ _ _ _) _).
  - discriminate.
  - cbn [dec_tokens]. unfold nulls.
    replace (Z.to_nat 10000) with (Z.to_nat 9999 + 1)%nat by lia.
    rewrite repeat_app. reflexivity.
  - unfold nulls. cbn [List.length]. rewrite repeat_length. lia.
  - cbn [runTokens]. unfold bind. exact Hrun.
  - discriminate.
Defined.

Lemma processToken_tags marshal token p p' :
  processToken marshal token p = Ok tt p' ->
  tagCount false (inArray p') = tagCount false (inArray p) + braceDelta token /\
  tagCount true (inArray p') = tagCount true (inArray p) + bracketDelta token.
Proof.
  intros H. apply processToken_cases in H. destruct H as [_ H].
  unfold tagCount.
  destruct token as [d | v | v | v | | name]; cbn [braceDelta bracketDelta].
  - destruct H as [[-> H] | [[-> H] | [[-> H] | [-> H]]]]; cbn.
    + apply startObject_effect in H. destruct H as (_ & -> & _).
      rewrite !count_occ_app. cbn. lia.
    + apply endObject_effect in H. destruct H as (_ & -> & _).
      rewrite !count_occ_app. cbn. lia.
    + apply startArray_effect in H. destruct H as (_ & -> & _).
      rewrite !count_occ_app. cbn. lia.
    + apply endArray_effect in H. destruct H as (_ & -> & _).
      rewrite !count_occ_app. cbn. lia.
  - apply handleString_effect in H. unfold scalarEffect in H.
    destruct H as ((_ & -> & _) & _). lia.
  - apply handleNumber_effect in H. unfold scalarEffect in H.
    destruct H as ((_ & -> & _) & _). lia.
  - apply handleBoolean_effect in H. unfold scalarEffect in H.
    destruct H as ((_ & -> & _) & _). lia.
  - apply handleNull_effect in H. unfold scalarEffect in H.
    destruct H as ((_ & -> & _) & _). lia.
  - destruct H.
Qed.

Lemma runTokens_tags marshal tokens :
  forall p p',
    runTokens marshal tokens p = Ok tt p' ->
    tagCount false (inArray p') = tagCount false (inArray p) + total braceDelta tokens /\
    tagCount true (inArray p') = tagCount true (inArray p) + total bracketDelta tokens.
Proof.
  induction tokens as [| token rest IH]; intros p p' Hrun; cbn in *.
  - inversion Hrun; subst. lia.
  - unfold bind in Hrun.
    destruct (processToken marshal token p) as [[] p1 | e p1 | v p1] eqn:Hstep;
      try discriminate.
    apply processToken_tags in Hstep. apply IH in Hrun. lia.
Qed.

Lemma runTokens_append marshal pre post :
  forall p,
    runTokens marshal (pre ++ post) p
    = match runTokens marshal pre p with
      | Ok _ p' => runTokens marshal post p'
      | Err e p' => Err e p'
      | Panic v p' => Panic v p'
      end.
Proof.
  induction pre as [| token pre IH]; intros p; cbn [app runTokens].
  - reflexivity.
  - unfold bind. destruct (processToken marshal token p) as [[] p1 | e p1 | v p1];
      [apply IH | reflexivity | reflexivity].
Qed.

Lemma tagCount_nonneg (kind : bool) (st : list bool) : 0 <= tagCount kind st.
Proof. unfold tagCount. lia. Qed.

Lemma tagCount_balanced (p : TokenParser) :
  balanced p -> depth p = 0 ->
  tagCount false (inArray p) = 0 /\ tagCount true (inArray p) = 0.
Proof.
  intros [Hlen _] Hdepth. rewrite Hdepth in Hlen.
  destruct (inArray p); [split; reflexivity | cbn in Hlen; lia].
Qed.

(** X8: what [Format] formats is balanced, kind by kind.  When [Format]
    returns without an error, the tokens it read open as many objects as
    they close and as many arrays as they close, and no prefix of them
    closes more objects, or more arrays, than it has opened. *)
Theorem formatted_input_is_balanced :
  forall (marshal : float -> string) (newDecoder : string -> Decoder)
         (f : Formatter) (jsonStr result : string),
    Format marshal newDecoder f jsonStr = (result, None) ->
    total braceDelta (dec_tokens (newDecoder jsonStr)) = 0 /\
    total bracketDelta (dec_tokens (newDecoder jsonStr)) = 0 /\
    forall pre post,
      dec_tokens (newDecoder jsonStr) = (pre ++ post)%list ->
      0 <= total braceDelta pre /\ 0 <= total bracketDelta pre.
Proof.
  intros marshal newDecoder f jsonStr result.
  unfold Format, formatBody.
  destruct (String.eqb jsonStr ""); [discriminate |].
  destruct (tokenLoop _ _ _ _ _) as [r e | n p | v] eqn:Hloop.
  - apply tokenLoop_returned in Hloop. destruct Hloop as [_ He].
    intros H. inversion H; subst. congruence.
  - apply tokenLoop_broke in Hloop. destruct Hloop as (_ & _ & Hrun).
    destruct (depth p =? 0) eqn:Hdepth; [| discriminate]. zbool. intros _.
    assert (Hbal : balanced p).
    { eapply reachable_balanced, runTokens_reachable; [apply reach_start | exact Hrun]. }
    destruct (tagCount_balanced p Hbal Hdepth) as [H0 H1].
    pose proof (runTokens_tags _ _ _ _ Hrun) as [Hb Hk]. cbn in Hb, Hk.
    split; [lia | split; [lia |]].
    intros pre post Hsplit. rewrite Hsplit, runTokens_append in Hrun.
    destruct (runTokens marshal pre (newParser f jsonStr)) as [[] mid | e mid | v mid]
      eqn:Hmid; try discriminate.
    pose proof (runTokens_tags _ _ _ _ Hmid) as [Hb' Hk']. cbn in Hb', Hk'.
    pose proof (tagCount_nonneg false (inArray mid)).
    pose proof (tagCount_nonneg true (inArray mid)). lia.
  - destruct v; discriminate.
Qed.

Lemma formatted_input_is_balanced_witness :
  total braceDelta scenario1_tokens = 0 /\ total bracketDelta scenario1_tokens = 0.
Proof.
  destruct (formatted_input_is_balanced marshalSmall (decoderOf scenario1_tokens)
                                        (NewFormatter None) scenario1 scenario1_output)
    as (Hb & Hk & _).
  - vm_compute. reflexivity.
  - split; [exact Hb | exact Hk].
Defined.

(** X9: how [Format] ends when the decoder reaches the end of the
    input after tokens that were all processed, within the token limit.
    If a container is still open the result is the unclosed error; if
    there was no token at all it is the no-tokens error; otherwise it is
    what the builder holds, without an error. *)
Theorem end_of_input :
  forall (marshal : float -> string) (newDecoder : string -> Decoder)
         (f : Formatter) (jsonStr : string) (p : TokenParser),
    jsonStr <> "" ->
    dec_end (newDecoder jsonStr) = None ->
    Z.of_nat (List.length (dec_tokens (newDecoder jsonStr))) <= 10000 ->
    runTokens marshal (dec_tokens (newDecoder jsonStr)) (newParser f jsonStr) = Ok tt p ->
    (nestingOf (dec_tokens (newDecoder jsonStr)) <> 0 ->
     Format marshal newDecoder f jsonStr = ("", Some unclosedError)) /\
    (dec_tokens (newDecoder jsonStr) = [] ->
     Format marshal newDecoder f jsonStr = ("", Some noTokensError)) /\
    (nestingOf (dec_tokens (newDecoder jsonStr)) = 0 ->
     dec_tokens (newDecoder jsonStr) <> [] ->
     Format marshal newDecoder f jsonStr = (builderString p, None)).
Proof.
  intros marshal newDecoder f jsonStr p Hne Hend Hlen Hrun.
  apply String.eqb_neq in Hne. unfold Format, formatBody. rewrite Hne.
  rewrite tokenLoop_below_limit by lia. rewrite Hrun, Hend.
  pose proof (runTokens_depth _ _ _ _ Hrun) as [Hdepth _]. cbn [newParser depth] in Hdepth.
  split; [| split].
  - intros Hnest.
    replace (depth p =? 0) with false by (symmetry; apply Z.eqb_neq; lia).
    reflexivity.
  - intros Hnil. rewrite Hnil in *. cbn in Hrun. inversion Hrun; subst. reflexivity.
  - intros Hnest Hsome.
    replace (depth p =? 0) with true by (symmetry; apply Z.eqb_eq; lia).
    cbn [negb].
    destruct (dec_tokens (newDecoder jsonStr)) as [| token rest]; [congruence |].
    cbn [List.length].
    replace (0 + Z.of_nat (S (List.length rest)) =? 0) with false
      by (symmetry; apply Z.eqb_neq; lia).
    reflexivity.
Qed.

Lemma end_of_input_witness :
  Format marshalSmall (decoderOf [TDelim LBracket; TFloat64 1]) (NewFormatter None) "[1"
  = ("", Some unclosedError).
Proof.
  refine (proj1 (end_of_input marshalSmall (decoderOf [TDelim LBracket; TFloat64 1])
                              (NewFormatter None) "[1" _ _ _ _ _) _).
  - discriminate.
  - reflexivity.
  - cbn. lia.
  - vm_compute. reflexivity.
  - cbn. lia.
Defined.

(** ** Elementary writes *)

(** Case analysis on every test the goal branches on, after the tests
    the hypotheses settle have been rewritten. *)
Ltac rewrite_test H t :=
  lazymatch t with
  | true => fail
  | false => fail
  | _ => rewrite H; cbn
  end.

Ltac split_ifs_known :=
  repeat match goal with
         | H : ?t = true |- context [?t] => rewrite_test H t
         | H : ?t = false |- context [?t] => rewrite_test H t
         | |- context [match ?c with _ => _ end] =>
           match type of c with
           | bool => destruct c eqn:?
           | option _ => destruct c eqn:?
           end; cbn in *
         end.

Ltac layout_leaves :=
  unfold processToken, handleDelimiter, closeText, elementLead, lineBreak, commaBreak,
    compactAt, boolText, indentOf, topIsArray in *;
  unfold_engine; unfold strings_Repeat; cbn;
  split_ifs_known;
  repeat match goal with
         | H : (if ?c then None else Some _) = _ |- _ =>
           destruct c eqn:?; try discriminate H
         end;
  zbool;
  repeat match goal with
         | H : context [wrap64 ?z] |- _ => rewrite (wrap64_small z) in H by nia
         end;
  repeat match goal with
         | |- context [wrap64 ?z] => rewrite (wrap64_small z) by nia
         end;
  repeat match goal with
         | H : Some _ = Some _ |- _ => inversion H; subst; clear H
         end;
  try reflexivity; try congruence; try (exfalso; cbn in *; nia);
  try (rewrite ?append_nil_r, ?append_assoc; reflexivity).

Lemma nonempty_stack (st : list bool) : topIsArray st = true -> (List.length st =? 0)%nat = false.
Proof. destruct st; [discriminate | reflexivity]. Qed.

Lemma writeNewlineAndIndent_ok d st b c fe ek il :
  0 <= d <= 100 -> validConfig c ->
  writeNewlineAndIndent (mkTokenParser d st (Some b) (Some c) fe ek il)
  = Ok tt (mkTokenParser d st (Some (b ++ newline ++ indentOf c d)) (Some c) fe ek il).
Proof.
  intros Hrange [Hindent Hcompact]. layout_leaves.
Qed.

Lemma writeElementSeparator_array d st b c fe ek il :
  0 < d <= 100 -> validConfig c -> topIsArray st = true ->
  writeElementSeparator (mkTokenParser d st (Some b) (Some c) fe ek il)
  = Ok tt (mkTokenParser d st (Some (b ++ elementLead c d fe)) (Some c) fe ek il).
Proof.
  intros Hrange [Hindent Hcompact] Htop.
  pose proof (nonempty_stack st Htop) as Hstack.
  unfold topIsArray in Htop. rewrite Hstack in Htop.
  assert (Hpos : (0 <? d) = true) by (apply Z.ltb_lt; lia).
  destruct fe; layout_leaves.
Qed.

Lemma writeElementSeparator_other d st b c fe ek il :
  topIsArray st = false ->
  writeElementSeparator (mkTokenParser d st (Some b) (Some c) fe ek il)
  = Ok tt (mkTokenParser d st (Some b) (Some c) fe ek il).
Proof.
  intros Htop. unfold topIsArray in Htop.
  unfold writeElementSeparator, ifM, isInArray, ret. cbn [inArray isFirstElement depth].
  rewrite Htop. rewrite !andb_false_r. reflexivity.
Qed.

Lemma spaceOrNewline_ok d st b c fe ek il :
  0 <= d <= 100 -> validConfig c ->
  spaceOrNewline (mkTokenParser d st (Some b) (Some c) fe ek il)
  = Ok tt (mkTokenParser d st
                         (Some (b ++ (if compactAt (CompactDepth c) d then " "
                                      else newline ++ indentOf c d)))
                         (Some c) fe ek il).
Proof.
  intros Hrange [Hindent Hcompact]. layout_leaves.
Qed.

(** ** The layout of each token *)

Ltac rewrite_hyp H t :=
  lazymatch t with
  | true => fail
  | false => fail
  | _ => rewrite H
  end.

(** One token on a parser whose fields are known: the guards, the
    separator, the text, the flags, each rewritten by what the hypotheses
    say of the tests. *)
Ltac token_step :=
  unfold processToken, handleDelimiter, handleNull, handleBoolean, handleNumber,
    handleString, startObject, startArray, endObject, endArray, enterObject, enterArray,
    exitObject, exitArray, formatNumber, escapeString, nilGuards, markElement, guard, ifM,
    bind, ret, fail, wrapError, modify, WriteString, isNil, shouldFormatCompact, getConfig,
    LBrace, RBrace, LBracket, RBracket;
  repeat first
         [ progress unfold set_depth, set_inArray, set_builder, set_isFirstElement,
             set_expectingKey, isInArray, bind, ret
         | progress cbn [depth builder config expectingKey isFirstElement inArray inputLength
                         andb negb orb Z.eqb Pos.eqb]
         | progress cbv beta iota
         | match goal with
           | H : ?t = true |- context [?t] => rewrite_hyp H t
           | H : ?t = false |- context [?t] => rewrite_hyp H t
           end
         | rewrite writeElementSeparator_array by assumption
         | rewrite writeElementSeparator_other by assumption
         | rewrite spaceOrNewline_ok by assumption
         | rewrite writeNewlineAndIndent_ok by assumption
         | rewrite strip_quotes_marshal ];
  unfold elementLead, lineBreak, commaBreak, closeText, compactAt, boolText in *;
  repeat match goal with
         | H : ?t = true |- context [?t] => rewrite_hyp H t
         | H : ?t = false |- context [?t] => rewrite_hyp H t
         end;
  try (rewrite ?append_nil_r, ?append_assoc; reflexivity).

(** What the tests of a token come to in an array, in an object and at
    the top level. *)
Ltac known_tests d st c :=
  let Hc := fresh "Hcompact" in
  destruct (compactAt (CompactDepth c) d) eqn:Hc; unfold compactAt in Hc;
  try assert (0 < d <= 100) by lia;
  assert ((d <? 0) = false) by (apply Z.ltb_ge; lia);
  assert ((100 <? d) = false) by (apply Z.ltb_ge; lia);
  try assert ((0 <? d) = true) by (apply Z.ltb_lt; lia);
  try assert ((d =? 0) = false) by (apply Z.eqb_neq; lia);
  try assert ((d <=? 0) = false) by (apply Z.leb_gt; lia);
  try assert ((100 <=? d) = false) by (apply Z.leb_gt; lia).

Lemma scalar_in_array marshal d st b c fe il :
  balanced (mkTokenParser d st (Some b) (Some c) fe false il) ->
  validConfig c ->
  topIsArray st = true ->
  processToken marshal TNil (mkTokenParser d st (Some b) (Some c) fe false il)
  = Ok tt (mkTokenParser d st (Some (b ++ elementLead c d fe ++ "null"))
                         (Some c) false false il) /\
  (forall v,
      processToken marshal (TBool v) (mkTokenParser d st (Some b) (Some c) fe false il)
      = Ok tt (mkTokenParser d st (Some (b ++ elementLead c d fe ++ boolText v))
                             (Some c) false false il)) /\
  (forall v,
      isNaN v = false -> isInfinite v = false ->
      processToken marshal (TFloat64 v) (mkTokenParser d st (Some b) (Some c) fe false il)
      = Ok tt (mkTokenParser d st (Some (b ++ elementLead c d fe ++ marshal v))
                             (Some c) false false il)) /\
  (forall s,
      len s <= 1000000 ->
      processToken marshal (TString s) (mkTokenParser d st (Some b) (Some c) fe false il)
      = Ok tt (mkTokenParser d st
                             (Some (b ++ elementLead c d fe ++ quote ++ json_escape s ++ quote))
                             (Some c) false false il)).
Proof.
  intros [Hlen Hrange] Hvalid Htop. cbn in Hlen, Hrange.
  pose proof (nonempty_stack st Htop) as Hstack.
  assert (Hpos : 0 < d) by (apply Nat.eqb_neq in Hstack; lia).
  pose proof Htop as Hlast. unfold topIsArray in Hlast. rewrite Hstack in Hlast.
  known_tests d st c.
  all: split; [| split; [| split]].
  all: try (intros v Hnan Hinf); try (intros s Hs; apply Z.ltb_ge in Hs); try intros v.
  all: token_step.
Qed.

Lemma member_in_object marshal d st b c fe il :
  balanced (mkTokenParser d st (Some b) (Some c) fe false il) ->
  validConfig c ->
  topIsArray st = false -> 0 < d ->
  (forall s,
      len s <= 1000000 ->
      processToken marshal (TString s) (mkTokenParser d st (Some b) (Some c) fe true il)
      = Ok tt (mkTokenParser d st
                             (Some (b ++ elementLead c d fe
                                      ++ quote ++ json_escape s ++ quote ++ ":"))
                             (Some c) false false il)) /\
  processToken marshal TNil (mkTokenParser d st (Some b) (Some c) fe false il)
  = Ok tt (mkTokenParser d st (Some (b ++ " null")) (Some c) false true il) /\
  (forall v,
      processToken marshal (TBool v) (mkTokenParser d st (Some b) (Some c) fe false il)
      = Ok tt (mkTokenParser d st (Some (b ++ " " ++ boolText v)) (Some c) false true il)) /\
  (forall v,
      isNaN v = false -> isInfinite v = false ->
      processToken marshal (TFloat64 v) (mkTokenParser d st (Some b) (Some c) fe false il)
      = Ok tt (mkTokenParser d st (Some (b ++ " " ++ marshal v)) (Some c) false true il)) /\
  (forall s,
      len s <= 1000000 ->
      processToken marshal (TString s) (mkTokenParser d st (Some b) (Some c) fe false il)
      = Ok tt (mkTokenParser d st (Some (b ++ " " ++ quote ++ json_escape s ++ quote))
                             (Some c) false true il)).
Proof.
  intros [Hlen Hrange] Hvalid Htop Hpos. cbn in Hlen, Hrange.
  assert (Hstack : (List.length st =? 0)%nat = false) by (apply Nat.eqb_neq; lia).
  pose proof Htop as Hlast. unfold topIsArray in Hlast. rewrite Hstack in Hlast.
  known_tests d st c.
  all: split; [| split; [| split; [| split]]].
  all: try (intros v Hnan Hinf); try (intros s Hs; apply Z.ltb_ge in Hs); try intros v.
  all: destruct fe; token_step.
Qed.

Lemma scalar_at_root marshal b c fe il :
  processToken marshal TNil (mkTokenParser 0 [] (Some b) (Some c) fe false il)
  = Ok tt (mkTokenParser 0 [] (Some (b ++ "null")) (Some c) false true il) /\
  (forall v,
      processToken marshal (TBool v) (mkTokenParser 0 [] (Some b) (Some c) fe false il)
      = Ok tt (mkTokenParser 0 [] (Some (b ++ boolText v)) (Some c) false true il)) /\
  (forall v,
      isNaN v = false -> isInfinite v = false ->
      processToken marshal (TFloat64 v) (mkTokenParser 0 [] (Some b) (Some c) fe false il)
      = Ok tt (mkTokenParser 0 [] (Some (b ++ marshal v)) (Some c) false true il)) /\
  (forall s,
      len s <= 1000000 ->
      processToken marshal (TString s) (mkTokenParser 0 [] (Some b) (Some c) fe false il)
      = Ok tt (mkTokenParser 0 [] (Some (b ++ quote ++ json_escape s ++ quote))
                             (Some c) false true il)).
Proof.
  assert (Htop : topIsArray [] = false) by reflexivity.
  assert (H0 : (0 <? 0) = false) by reflexivity.
  assert (H100 : (100 <? 0) = false) by reflexivity.
  split; [| split; [| split]].
  all: try (intros v Hnan Hinf); try (intros s Hs; apply Z.ltb_ge in Hs); try intros v.
  all: token_step.
Qed.

(** ** Delimiters *)

Lemma opener_at_root marshal b c fe ek il :
  processToken marshal (TDelim LBrace) (mkTokenParser 0 [] (Some b) (Some c) fe ek il)
  = Ok tt (mkTokenParser 1 [false] (Some (b ++ "{")) (Some c) true true il) /\
  processToken marshal (TDelim LBracket) (mkTokenParser 0 [] (Some b) (Some c) fe ek il)
  = Ok tt (mkTokenParser 1 [true] (Some (b ++ "[")) (Some c) true false il).
Proof.
  split; destruct fe, ek; reflexivity.
Qed.

Lemma opener_in_array marshal d st b c fe il :
  balanced (mkTokenParser d st (Some b) (Some c) fe false il) ->
  validConfig c ->
  topIsArray st = true -> d < 100 ->
  processToken marshal (TDelim LBrace) (mkTokenParser d st (Some b) (Some c) fe false il)
  = Ok tt (mkTokenParser (d + 1) (st ++ [false]) (Some (b ++ elementLead c d fe ++ "{"))
                         (Some c) true true il) /\
  processToken marshal (TDelim LBracket) (mkTokenParser d st (Some b) (Some c) fe false il)
  = Ok tt (mkTokenParser (d + 1) (st ++ [true])
                         (Some (b ++ (if fe then "" else commaBreak c d) ++ "["))
                         (Some c) true false il).
Proof.
  intros [Hlen Hrange] Hvalid Htop Hbelow. cbn in Hlen, Hrange.
  pose proof (nonempty_stack st Htop) as Hstack.
  assert (Hpos : 0 < d) by (apply Nat.eqb_neq in Hstack; lia).
  pose proof Htop as Hlast. unfold topIsArray in Hlast. rewrite Hstack in Hlast.
  known_tests d st c.
  all: split; destruct fe; token_step.
Qed.

Lemma opener_in_object marshal d st b c fe il :
  balanced (mkTokenParser d st (Some b) (Some c) fe false il) ->
  topIsArray st = false -> 0 < d < 100 ->
  processToken marshal (TDelim LBrace) (mkTokenParser d st (Some b) (Some c) fe false il)
  = Ok tt (mkTokenParser (d + 1) (st ++ [false]) (Some (b ++ " {")) (Some c) true true il) /\
  processToken marshal (TDelim LBracket) (mkTokenParser d st (Some b) (Some c) fe false il)
  = Ok tt (mkTokenParser (d + 1) (st ++ [true]) (Some (b ++ " [")) (Some c) true false il).
Proof.
  intros [Hlen Hrange] Htop Hpos. cbn in Hlen, Hrange.
  assert (Hstack : (List.length st =? 0)%nat = false) by (apply Nat.eqb_neq; lia).
  pose proof Htop as Hlast. unfold topIsArray in Hlast. rewrite Hstack in Hlast.
  known_tests d st c.
  all: split; destruct fe; token_step.
Qed.

Lemma closer_in_object marshal d st b c fe ek il :
  balanced (mkTokenParser d st (Some b) (Some c) fe ek il) ->
  validConfig c ->
  topIsArray st = false -> 0 < d ->
  processToken marshal (TDelim RBrace) (mkTokenParser d st (Some b) (Some c) fe ek il)
  = Ok tt (mkTokenParser (d - 1) (removelast st) (Some (b ++ closeText c d "}"))
                         (Some c) fe false il) /\
  processToken marshal (TDelim RBracket) (mkTokenParser d st (Some b) (Some c) fe ek il)
  = Err (NewFormatError "malformed JSON: unexpected array end, currently in object context")
        (mkTokenParser d st (Some b) (Some c) fe ek il).
Proof.
  intros [Hlen Hrange] Hvalid Htop Hpos. cbn in Hlen, Hrange.
  assert (Hstack : (List.length st =? 0)%nat = false) by (apply Nat.eqb_neq; lia).
  pose proof Htop as Hlast. unfold topIsArray in Hlast. rewrite Hstack in Hlast.
  assert (Hup : 0 <= d - 1 <= 100) by lia.
  known_tests d st c.
  all: split; token_step.
Qed.

Lemma closer_in_array marshal d st b c fe ek il :
  balanced (mkTokenParser d st (Some b) (Some c) fe ek il) ->
  validConfig c ->
  topIsArray st = true ->
  processToken marshal (TDelim RBracket) (mkTokenParser d st (Some b) (Some c) fe ek il)
  = Ok tt (mkTokenParser (d - 1) (removelast st) (Some (b ++ closeText c d "]"))
                         (Some c) fe
                         (if topIsArray (removelast st) then ek else true) il) /\
  processToken marshal (TDelim RBrace) (mkTokenParser d st (Some b) (Some c) fe ek il)
  = Err (NewFormatError "malformed JSON: unexpected object end, currently in array context")
        (mkTokenParser d st (Some b) (Some c) fe ek il).
Proof.
  intros [Hlen Hrange] Hvalid Htop. cbn in Hlen, Hrange.
  pose proof (nonempty_stack st Htop) as Hstack.
  assert (Hpos : 0 < d) by (apply Nat.eqb_neq in Hstack; lia).
  pose proof Htop as Hlast. unfold topIsArray in Hlast. rewrite Hstack in Hlast.
  assert (Hup : 0 <= d - 1 <= 100) by lia.
  destruct (topIsArray (removelast st)) eqn:Hunder; unfold topIsArray in Hunder.
  all: known_tests d st c.
  all: split; token_step.
Qed.

Lemma closer_at_root marshal b c fe ek il :
  processToken marshal (TDelim RBrace) (mkTokenParser 0 [] (Some b) (Some c) fe ek il)
  = Err (NewFormatError "malformed JSON: unexpected object end, no matching opening brace")
        (mkTokenParser 0 [] (Some b) (Some c) fe ek il) /\
  processToken marshal (TDelim RBracket) (mkTokenParser 0 [] (Some b) (Some c) fe ek il)
  = Err (NewFormatError "malformed JSON: unexpected array end, no matching opening bracket")
        (mkTokenParser 0 [] (Some b) (Some c) fe ek il).
Proof.
  split; reflexivity.
Qed.

Lemma opener_key_expected marshal d st b c fe il :
  0 < d <= 100 ->
  processToken marshal (TDelim LBrace) (mkTokenParser d st (Some b) (Some c) fe true il)
  = Err (NewFormatError "malformed JSON: unexpected object start, expected object key")
        (mkTokenParser d st (Some b) (Some c) fe true il) /\
  processToken marshal (TDelim LBracket) (mkTokenParser d st (Some b) (Some c) fe true il)
  = Err (NewFormatError "malformed JSON: unexpected array start, expected object key")
        (mkTokenParser d st (Some b) (Some c) fe true il).
Proof.
  intros Hrange.
  assert (H0 : (d <? 0) = false) by (apply Z.ltb_ge; lia).
  assert (H100 : (100 <? d) = false) by (apply Z.ltb_ge; lia).
  assert (Hpos : (0 <? d) = true) by (apply Z.ltb_lt; lia).
  split; token_step.
Qed.

(** ** The layout, token by token *)

(** X10: under a valid configuration a closing delimiter is accepted
    exactly when it matches the innermost open container.  The matching
    delimiter takes the container off the stack and writes itself, alone
    if the container is compact, after a line break and the indentation of
    the enclosing level if not; after a bracket the parser expects a key
    when the enclosing container is no array, after a brace it expects
    none.  A delimiter that does not match, or one met at depth 0, is
    refused with its own message and the parser is left as it was. *)
Theorem closing_delimiter_must_match :
  forall (marshal : float -> string)
         (d : Z) (st : list bool) (b : string) (c : Config) (fe ek : bool) (il : Z),
    balanced (mkTokenParser d st (Some b) (Some c) fe ek il) ->
    validConfig c ->
    (topIsArray st = false -> 0 < d ->
     processToken marshal (TDelim RBrace) (mkTokenParser d st (Some b) (Some c) fe ek il)
     = Ok tt (mkTokenParser (d - 1) (removelast st) (Some (b ++ closeText c d "}"))
                            (Some c) fe false il) /\
     processToken marshal (TDelim RBracket) (mkTokenParser d st (Some b) (Some c) fe ek il)
     = Err (NewFormatError
              "malformed JSON: unexpected array end, currently in object context")
           (mkTokenParser d st (Some b) (Some c) fe ek il)) /\
    (topIsArray st = true ->
     processToken marshal (TDelim RBracket) (mkTokenParser d st (Some b) (Some c) fe ek il)
     = Ok tt (mkTokenParser (d - 1) (removelast st) (Some (b ++ closeText c d "]"))
                            (Some c) fe
                            (if topIsArray (removelast st) then ek else true) il) /\
     processToken marshal (TDelim RBrace) (mkTokenParser d st (Some b) (Some c) fe ek il)
     = Err (NewFormatError
              "malformed JSON: unexpected object end, currently in array context")
           (mkTokenParser d st (Some b) (Some c) fe ek il)) /\
    (d = 0 ->
     processToken marshal (TDelim RBrace) (mkTokenParser d st (Some b) (Some c) fe ek il)
     = Err (NewFormatError
              "malformed JSON: unexpected object end, no matching opening brace")
           (mkTokenParser d st (Some b) (Some c) fe ek il) /\
     processToken marshal (TDelim RBracket) (mkTokenParser d st (Some b) (Some c) fe ek il)
     = Err (NewFormatError
              "malformed JSON: unexpected array end, no matching opening bracket")
           (mkTokenParser d st (Some b) (Some c) fe ek il)).
Proof.
  intros marshal d st b c fe ek il Hbal Hvalid.
  split; [| split].
  - intros Htop Hpos. apply closer_in_object; assumption.
  - intros Htop. apply closer_in_array; assumption.
  - intros Hzero. destruct Hbal as [Hlen _]. cbn in Hlen. subst d.
    destruct st; [| discriminate]. apply closer_at_root.
Qed.

Lemma closing_delimiter_must_match_witness :
  processToken marshalSmall (TDelim RBracket) afterOpenBracket
  = Ok tt (mkTokenParser 0 [] (Some ("[" ++ newline ++ "]")) (Some DefaultConfig)
                         true true 2).
Proof.
  assert (Hbal : balanced afterOpenBracket) by (split; cbn; lia).
  assert (Hvalid : validConfig DefaultConfig) by (split; cbn; lia).
  exact (proj1 (proj1 (proj2 (closing_delimiter_must_match
                                marshalSmall 1 [true] "[" DefaultConfig true false 2
                                Hbal Hvalid))
                      eq_refl)).
Defined.

(** X11: what an opening delimiter writes, under a valid configuration
    and below the depth limit.  At the top level it writes itself.  In an
    array a brace comes after what leads an element in (a line break and
    the indentation, or nothing when compact, before the first; a comma
    and the same, or a comma and a space, before the others), a bracket
    after nothing when it is the first element and after the comma
    otherwise: a bracket that opens an array's first element stays on the
    line of the bracket before it.  As the value of a key either comes
    after one space.  The parser then is one level deeper, with the new
    container on its stack, at a first element, and expects a key in an
    object only.  Where a key is expected inside a container, both are
    refused and nothing changes. *)
Theorem opening_delimiter_layout :
  forall (marshal : float -> string)
         (d : Z) (st : list bool) (b : string) (c : Config) (fe : bool) (il : Z),
    balanced (mkTokenParser d st (Some b) (Some c) fe false il) ->
    validConfig c ->
    d < 100 ->
    (d = 0 ->
     forall ek,
       processToken marshal (TDelim LBrace) (mkTokenParser d st (Some b) (Some c) fe ek il)
       = Ok tt (mkTokenParser 1 [false] (Some (b ++ "{")) (Some c) true true il) /\
       processToken marshal (TDelim LBracket) (mkTokenParser d st (Some b) (Some c) fe ek il)
       = Ok tt (mkTokenParser 1 [true] (Some (b ++ "[")) (Some c) true false il)) /\
    (topIsArray st = true ->
     processToken marshal (TDelim LBrace) (mkTokenParser d st (Some b) (Some c) fe false il)
     = Ok tt (mkTokenParser (d + 1) (st ++ [false]) (Some (b ++ elementLead c d fe ++ "{"))
                            (Some c) true true il) /\
     processToken marshal (TDelim LBracket) (mkTokenParser d st (Some b) (Some c) fe false il)
     = Ok tt (mkTokenParser (d + 1) (st ++ [true])
                            (Some (b ++ (if fe then "" else commaBreak c d) ++ "["))
                            (Some c) true false il)) /\
    (topIsArray st = false -> 0 < d ->
     processToken marshal (TDelim LBrace) (mkTokenParser d st (Some b) (Some c) fe false il)
     = Ok tt (mkTokenParser (d + 1) (st ++ [false]) (Some (b ++ " {")) (Some c)
                            true true il) /\
     processToken marshal (TDelim LBracket) (mkTokenParser d st (Some b) (Some c) fe false il)
     = Ok tt (mkTokenParser (d + 1) (st ++ [true]) (Some (b ++ " [")) (Some c)
                            true false il)) /\
    (0 < d ->
     processToken marshal (TDelim LBrace) (mkTokenParser d st (Some b) (Some c) fe true il)
     = Err (NewFormatError "malformed JSON: unexpected object start, expected object key")
           (mkTokenParser d st (Some b) (Some c) fe true il) /\
     processToken marshal (TDelim LBracket) (mkTokenParser d st (Some b) (Some c) fe true il)
     = Err (NewFormatError "malformed JSON: unexpected array start, expected object key")
           (mkTokenParser d st (Some b) (Some c) fe true il)).
Proof.
  intros marshal d st b c fe il Hbal Hvalid Hbelow.
  split; [| split; [| split]].
  - intros Hzero ek. destruct Hbal as [Hlen _]. cbn in Hlen. subst d.
    destruct st; [| discriminate]. apply opener_at_root.
  - intros Htop. apply opener_in_array; assumption.
  - intros Htop Hpos. apply opener_in_object; [assumption | assumption | lia].
  - intros Hpos. apply opener_key_expected. lia.
Qed.

Lemma opening_delimiter_layout_witness :
  processToken marshalSmall (TDelim LBracket) afterOpenBracket
  = Ok tt (mkTokenParser 2 [true; true] (Some "[[") (Some DefaultConfig) true false 2).
Proof.
  assert (Hbal : balanced afterOpenBracket) by (split; cbn; lia).
  assert (Hvalid : validConfig DefaultConfig) by (split; cbn; lia).
  assert (Hbelow : 1 < 100) by lia.
  exact (proj2 (proj1 (proj2 (opening_delimiter_layout
                                marshalSmall 1 [true] "[" DefaultConfig true 2
                                Hbal Hvalid Hbelow))
                      eq_refl)).
Defined.

(** X12: what a value that is no container writes in an array, under a
    valid configuration: what leads an element in (a line break and the
    indentation of the array's depth, or nothing when compact, before the
    first; a comma and the same, or a comma and a space, before the
    others), then [null], [true] or [false], the marshalled number, or
    the escaped string in its quotes.  The depth and the stack are as they
    were and the next element is no first element. *)
Theorem array_element_layout :
  forall (marshal : float -> string)
         (d : Z) (st : list bool) (b : string) (c : Config) (fe : bool) (il : Z),
    balanced (mkTokenParser d st (Some b) (Some c) fe false il) ->
    validConfig c ->
    topIsArray st = true ->
    processToken marshal TNil (mkTokenParser d st (Some b) (Some c) fe false il)
    = Ok tt (mkTokenParser d st (Some (b ++ elementLead c d fe ++ "null"))
                           (Some c) false false il) /\
    (forall v,
        processToken marshal (TBool v) (mkTokenParser d st (Some b) (Some c) fe false il)
        = Ok tt (mkTokenParser d st (Some (b ++ elementLead c d fe ++ boolText v))
                               (Some c) false false il)) /\
    (forall v,
        isNaN v = false -> isInfinite v = false ->
        processToken marshal (TFloat64 v) (mkTokenParser d st (Some b) (Some c) fe false il)
        = Ok tt (mkTokenParser d st (Some (b ++ elementLead c d fe ++ marshal v))
                               (Some c) false false il)) /\
    (forall s,
        len s <= 1000000 ->
        processToken marshal (TString s) (mkTokenParser d st (Some b) (Some c) fe false il)
        = Ok tt (mkTokenParser d st
                               (Some (b ++ elementLead c d fe
                                        ++ quote ++ json_escape s ++ quote))
                               (Some c) false false il)).
Proof.
  intros marshal d st b c fe il. apply scalar_in_array.
Qed.

Lemma array_element_layout_witness :
  processToken marshalSmall TNil afterOpenBracket
  = Ok tt (mkTokenParser 1 [true] (Some ("[" ++ newline ++ "  null")) (Some DefaultConfig)
                         false false 2).
Proof.
  assert (Hbal : balanced afterOpenBracket) by (split; cbn; lia).
  assert (Hvalid : validConfig DefaultConfig) by (split; cbn; lia).
  exact (proj1 (array_element_layout marshalSmall 1 [true] "[" DefaultConfig true 2
                                     Hbal Hvalid eq_refl)).
Defined.



(** ** Sequences of tokens *)

Lemma balanced_push d st b c fe ek il (kind : bool) b' fe' ek' :
  balanced (mkTokenParser d st b c fe ek il) -> d < 100 ->
  balanced (mkTokenParser (d + 1) (st ++ [kind]) b' c fe' ek' il).
Proof.
  intros [Hlen Hrange] Hbelow. cbn in *. split; cbn.
  - rewrite length_app. cbn. lia.
  - lia.
Qed.

Lemma topIsArray_push (st : list bool) (kind : bool) : topIsArray (st ++ [kind]) = kind.
Proof.
  unfold topIsArray. rewrite length_app, last_last. cbn.
  replace (List.length st + 1)%nat with (S (List.length st)) by lia. reflexivity.
Qed.

(** X14: a comma is written before an element of an array only when an
    element was written since the last opening delimiter; the end of a
    container does not count as one.  So, in an array and under a valid
    configuration, a value that follows an empty array or an empty object
    is written without a comma between them, whereas one that follows an
    array with an element in it gets its comma. *)
Theorem empty_container_drops_comma :
  forall (marshal : float -> string)
         (d : Z) (st : list bool) (b : string) (c : Config) (fe : bool) (il : Z),
    balanced (mkTokenParser d st (Some b) (Some c) fe false il) ->
    validConfig c ->
    topIsArray st = true -> d < 100 ->
    runTokens marshal [TDelim LBracket; TDelim RBracket; TNil]
              (mkTokenParser d st (Some b) (Some c) fe false il)
    = Ok tt (mkTokenParser d st
                           (Some (b ++ (if fe then "" else commaBreak c d) ++ "["
                                    ++ closeText c (d + 1) "]"
                                    ++ lineBreak c d ++ "null"))
                           (Some c) false false il) /\
    runTokens marshal [TDelim LBrace; TDelim RBrace; TNil]
              (mkTokenParser d st (Some b) (Some c) fe false il)
    = Ok tt (mkTokenParser d st
                           (Some (b ++ elementLead c d fe ++ "{"
                                    ++ closeText c (d + 1) "}"
                                    ++ lineBreak c d ++ "null"))
                           (Some c) false false il) /\
    runTokens marshal [TDelim LBracket; TNil; TDelim RBracket; TNil]
              (mkTokenParser d st (Some b) (Some c) fe false il)
    = Ok tt (mkTokenParser d st
                           (Some (b ++ (if fe then "" else commaBreak c d) ++ "["
                                    ++ lineBreak c (d + 1) ++ "null"
                                    ++ closeText c (d + 1) "]"
                                    ++ commaBreak c d ++ "null"))
                           (Some c) false false il).
Proof.
  intros marshal d st b c fe il Hbal Hvalid Htop Hbelow.
  pose proof (topIsArray_push st true) as Harr.
  pose proof (topIsArray_push st false) as Hobj.
  assert (Hinner : forall kind b' fe' ek',
             balanced (mkTokenParser (d + 1) (st ++ [kind]) (Some b') (Some c) fe' ek' il)).
  { intros. eapply balanced_push; eassumption. }
  assert (Houter : forall b' fe' ek',
             balanced (mkTokenParser d st (Some b') (Some c) fe' ek' il)).
  { intros. exact Hbal. }
  assert (Hpos : 0 < d + 1) by (destruct Hbal as [_ Hrange]; cbn in Hrange; lia).
  cbn [runTokens]. unfold bind, ret.
  split; [| split].
  - rewrite (proj2 (opener_in_array marshal d st b c fe il Hbal Hvalid Htop Hbelow)).
    rewrite (proj1 (closer_in_array marshal _ _ _ c true false il
                                    (Hinner true _ true false) Hvalid Harr)).
    rewrite removelast_last, Htop, Z.add_simpl_r.
    rewrite (proj1 (scalar_in_array marshal d st _ c true il (Houter _ true false)
                                    Hvalid Htop)).
    unfold elementLead. rewrite ?append_assoc. reflexivity.
  - rewrite (proj1 (opener_in_array marshal d st b c fe il Hbal Hvalid Htop Hbelow)).
    rewrite (proj1 (closer_in_object marshal _ _ _ c true true il
                                     (Hinner false _ true true) Hvalid Hobj Hpos)).
    rewrite removelast_last, Z.add_simpl_r.
    rewrite (proj1 (scalar_in_array marshal d st _ c true il (Houter _ true false)
                                    Hvalid Htop)).
    unfold elementLead. rewrite ?append_assoc. reflexivity.
  - rewrite (proj2 (opener_in_array marshal d st b c fe il Hbal Hvalid Htop Hbelow)).
    rewrite (proj1 (scalar_in_array marshal _ _ _ c true il (Hinner true _ true false)
                                    Hvalid Harr)).
    rewrite (proj1 (closer_in_array marshal _ _ _ c false false il
                                    (Hinner true _ false false) Hvalid Harr)).
    rewrite removelast_last, Htop, Z.add_simpl_r.
    rewrite (proj1 (scalar_in_array marshal d st _ c false il (Houter _ false false)
                                    Hvalid Htop)).
    unfold elementLead. rewrite ?append_assoc. reflexivity.
Qed.

Lemma empty_container_drops_comma_witness :
  runTokens marshalSmall [TDelim LBracket; TDelim RBracket; TNil] afterOpenBracket
  = Ok tt (mkTokenParser 1 [true]
                         (Some ("[[" ++ newline ++ "  ]" ++ newline ++ "  null"))
                         (Some DefaultConfig) false false 2).
Proof.
  assert (Hbal : balanced afterOpenBracket) by (split; cbn; lia).
  assert (Hvalid : validConfig DefaultConfig) by (split; cbn; lia).
  assert (Hbelow : 1 < 100) by lia.
  exact (proj1 (empty_container_drops_comma marshalSmall 1 [true] "[" DefaultConfig true 2
                                            Hbal Hvalid eq_refl Hbelow)).
Defined.

(** ** Escaped strings *)

Lemma printable_append (s1 s2 : string) :
  printable (s1 ++ s2) = printable s1 && printable s2.
Proof.
  induction s1 as [| c s1 IH]; [reflexivity |].
  cbn. rewrite IH. apply andb_assoc.
Qed.

Lemma escape_ascii_printable (c : ascii) : printable (escape_ascii c) = true.
Proof.
  destruct c as [[] [] [] [] [] [] [] []]; vm_compute; reflexivity.
Qed.

Lemma appendString_from_printable (src : string) :
  forall m, pendingOk m src -> printable (appendString_from m src) = true.
Proof.
  induction src as [| c rest IH]; intros m Hm.
  - reflexivity.
  - assert (Hfresh : printable (appendString_from (Copy 0) (String c rest)) = true).
    { cbn [appendString_from].
      destruct (byte_val c <? 128) eqn:E.
      - rewrite printable_append, escape_ascii_printable. apply IH. exact I.
      - zbool.
        destruct (utf8_DecodeRuneInString (String c rest)) as [r size] eqn:Hdec.
        destruct ((r =? RuneError) && (size =? 1)%nat)%bool eqn:Herr.
        + rewrite !printable_append. rewrite IH by exact I. reflexivity.
        + pose proof (decode_high _ _ _ _ Hdec E Herr) as Hhigh.
          destruct ((r =? 8232) || (r =? 8233))%bool eqn:Hsep.
          * rewrite !printable_append. rewrite IH by exact Hhigh.
            apply orb_true_iff in Hsep. destruct Hsep as [Hs | Hs]; zbool; subst r;
              reflexivity.
          * cbn [printable]. rewrite IH by exact Hhigh.
            replace (32 <=? byte_val c) with true by (symmetry; apply Z.leb_le; lia).
            reflexivity. }
    destruct m as [[| k] | [| k]]; cbn in Hm.
    + apply Hfresh.
    + cbn [appendString_from printable]. destruct Hm as [Hc Hk].
      rewrite IH by exact Hk.
      replace (32 <=? byte_val c) with true by (symmetry; apply Z.leb_le; lia).
      reflexivity.
    + apply Hfresh.
    + cbn [appendString_from]. destruct Hm as [Hc Hk]. apply IH. exact Hk.
Qed.

Lemma json_escape_printable (s : string) : printable (json_escape s) = true.
Proof. apply appendString_from_printable. exact I. Qed.

Lemma printable_no_byte (c : ascii) (s : string) :
  byte_val c < 32 -> printable s = true -> count_byte c s = O.
Proof.
  intros Hc. induction s as [| a s IH]; [reflexivity |].
  cbn. intros H. apply andb_true_iff in H. destruct H as [Ha Hs].
  rewrite (IH Hs). apply Z.leb_le in Ha.
  destruct (Ascii.eqb a c) eqn:E; [| reflexivity].
  apply Ascii.eqb_eq in E. subst a. lia.
Qed.

Lemma htmlSafe_ascii (b : Z) : htmlSafe b = true -> (b <? 128) = true.
Proof.
  unfold htmlSafe. intros H.
  apply andb_true_iff in H. destruct H as [H _].
  apply andb_true_iff in H. destruct H as [_ H]. exact H.
Qed.

Lemma json_escape_safe (s : string) : safeText s = true -> json_escape s = s.
Proof.
  unfold json_escape.
  induction s as [| c s IH]; [reflexivity |].
  cbn [safeText appendString_from]. intros H.
  apply andb_true_iff in H. destruct H as [Hc Hs].
  rewrite (htmlSafe_ascii _ Hc). unfold escape_ascii. rewrite Hc.
  cbn [append]. rewrite (IH Hs). reflexivity.
Qed.

Lemma length_escape_ascii (c : ascii) : (String.length (escape_ascii c) <= 6)%nat.
Proof.
  destruct c as [[] [] [] [] [] [] [] []]; vm_compute; lia.
Qed.

Lemma length_appendString_from (src : string) :
  forall m, (String.length (appendString_from m src) <= 6 * String.length src)%nat.
Proof.
  induction src as [| c rest IH]; intros m.
  - cbn. lia.
  - assert (Hfresh : (String.length (appendString_from (Copy 0) (String c rest))
                      <= 6 * String.length (String c rest))%nat).
    { cbn [appendString_from String.length].
      destruct (byte_val c <? 128).
      - rewrite length_append. pose proof (length_escape_ascii c).
        pose proof (IH (Copy 0)). lia.
      - destruct (utf8_DecodeRuneInString (String c rest)) as [r size].
        destruct ((r =? RuneError) && (size =? 1)%nat)%bool.
        + rewrite !length_append. pose proof (IH (Copy 0)). cbn. lia.
        + destruct ((r =? 8232) || (r =? 8233))%bool.
          * rewrite !length_append. pose proof (IH (Pass (Nat.pred size))). cbn. lia.
          * cbn [String.length]. pose proof (IH (Copy (Nat.pred size))). lia. }
    destruct m as [[| k] | [| k]].
    + apply Hfresh.
    + cbn [appendString_from String.length]. pose proof (IH (Copy k)). lia.
    + apply Hfresh.
    + cbn [appendString_from String.length]. pose proof (IH (Pass k)). lia.
Qed.

(** X15: what [escapeString] returns.  When it returns a text for [s],
    the parser is untouched and the text is the body of the JSON string
    literal of [s]: no byte of it is a control character, so that it holds
    no line break and no tab; it has at most six bytes for each byte of
    [s]; and it is [s] itself when every byte of [s] is a printable ASCII
    character other than the double quote, the backslash and the three
    HTML characters. *)
Theorem escapeString_text :
  forall (s escaped : string) (p p' : TokenParser),
    escapeString s p = Ok escaped p' ->
    p' = p /\
    printable escaped = true /\
    count_byte (byte_of 10) escaped = O /\ count_byte (byte_of 9) escaped = O /\
    len escaped <= 6 * len s /\
    (safeText s = true -> escaped = s).
Proof.
  intros s escaped p p'. unfold escapeString, fail, ret.
  destruct (1000000 <? len s); [discriminate |].
  rewrite strip_quotes_marshal. intros H. inversion H; subst.
  pose proof (json_escape_printable s) as Hprint.
  split; [reflexivity | split; [exact Hprint | split; [| split; [| split]]]].
  - apply printable_no_byte; [vm_compute; reflexivity | exact Hprint].
  - apply printable_no_byte; [vm_compute; reflexivity | exact Hprint].
  - unfold len, json_escape.
    pose proof (length_appendString_from s (Copy 0)). lia.
  - apply json_escape_safe.
Qed.

Lemma escapeString_text_witness :
  printable ("a" ++ backslash ++ "n") = true /\
  len ("a" ++ backslash ++ "n") <= 6 * len ("a" ++ newline).
Proof.
  destruct (escapeString_text ("a" ++ newline) ("a" ++ backslash ++ "n")
                              afterOpenBracket afterOpenBracket)
    as (_ & Hprint & _ & _ & Hlen & _).
  - reflexivity.
  - split; [exact Hprint | exact Hlen].
Defined.

(** ** Compact output *)

Lemma json_escape_no_newline (s : string) : count_byte (byte_of 10) (json_escape s) = O.
Proof.
  apply printable_no_byte; [vm_compute; reflexivity | apply json_escape_printable].
Qed.

Ltac count_breaks Hmarshal :=
  unfold lineBreaks, builderString; cbn [builder];
  repeat match goal with
         | |- context [strip_quotes (String ?q (json_escape ?s ++ quote))] =>
           change (strip_quotes (String q (json_escape s ++ quote)))
             with (strip_quotes (json_Marshal_string s));
           rewrite strip_quotes_marshal
         end;
  rewrite ?count_byte_append, ?json_escape_no_newline, ?Hmarshal;
  cbn; rewrite ?count_byte_append, ?json_escape_no_newline, ?Hmarshal; cbn; lia.

Ltac compact_leaves Hmarshal :=
  unfold_engine; unfold strings_Repeat; cbn;
  split_ifs_known;
  intros Hstep; try discriminate Hstep; inversion Hstep; subst;
  count_breaks Hmarshal.

Lemma processToken_compact_line marshal token p p' c :
  (forall v, count_byte (byte_of 10) (marshal v) = O) ->
  config p = Some c -> balanced p ->
  depth p = 0 \/ compactAt (CompactDepth c) (depth p) = true ->
  processToken marshal token p = Ok tt p' ->
  lineBreaks p' = lineBreaks p.
Proof.
  intros Hmarshal Hconfig [Hlen Hrange] Hdepth.
  destruct p as [d st [b |] [c0 |] fe ek il]; cbn in *; try discriminate.
  2: { destruct token; unfold_engine; cbn; split_ifs; discriminate. }
  inversion Hconfig; subst c0. clear Hconfig.
  destruct Hdepth as [Hzero | Hcompact].
  - assert (Hempty : st = []) by (destruct st; [reflexivity | cbn in Hlen; lia]).
    subst st. clear Hlen Hrange. subst d.
    destruct token as [delim | v | v | v | | name]; compact_leaves Hmarshal.
  - unfold compactAt in Hcompact.
    destruct token as [delim | v | v | v | | name]; compact_leaves Hmarshal.
Qed.

(** ** Whole documents *)

(** X16: the smallest documents.  When the decoder delivers one token
    that is no delimiter and then the end of the input, [Format] returns
    that value alone, whatever the configuration: [null], [true] or
    [false], the marshalled number, the escaped string in its quotes.  An
    empty object and an empty array are returned, under a valid
    configuration, with a line break between their delimiters unless depth
    1 is compact. *)
Theorem smallest_documents :
  forall (marshal : float -> string) (newDecoder : string -> Decoder)
         (f : Formatter) (c : Config) (jsonStr : string) (tokens : list Token),
    jsonStr <> "" ->
    f_config f = Some c ->
    newDecoder jsonStr = mkDecoder tokens None ->
    (tokens = [TNil] -> Format marshal newDecoder f jsonStr = ("null", None)) /\
    (forall v, tokens = [TBool v] ->
               Format marshal newDecoder f jsonStr = (boolText v, None)) /\
    (forall v, tokens = [TFloat64 v] -> isNaN v = false -> isInfinite v = false ->
               Format marshal newDecoder f jsonStr = (marshal v, None)) /\
    (forall s, tokens = [TString s] -> len s <= 1000000 ->
               Format marshal newDecoder f jsonStr
               = (quote ++ json_escape s ++ quote, None)) /\
    (validConfig c ->
     (tokens = [TDelim LBrace; TDelim RBrace] ->
      Format marshal newDecoder f jsonStr = ("{" ++ closeText c 1 "}", None)) /\
     (tokens = [TDelim LBracket; TDelim RBracket] ->
      Format marshal newDecoder f jsonStr = ("[" ++ closeText c 1 "]", None))).
Proof.
  intros marshal newDecoder f c jsonStr tokens Hne Hconfig Hdec.
  apply String.eqb_neq in Hne.
  unfold Format, formatBody. rewrite Hne, Hdec. cbn [dec_tokens dec_end].
  unfold newParser. rewrite Hconfig.
  destruct (scalar_at_root marshal "" c true (len jsonStr)) as (Hnull & Hbool & Hnum & Hstr).
  split; [| split; [| split; [| split]]].
  - intros ->. cbn [tokenLoop]. cbn [Z.add Z.ltb Z.compare Pos.compare Pos.compare_cont].
    rewrite Hnull. reflexivity.
  - intros v ->. cbn [tokenLoop]. cbn [Z.add Z.ltb Z.compare Pos.compare Pos.compare_cont].
    rewrite Hbool. reflexivity.
  - intros v -> Hnan Hinf. cbn [tokenLoop].
    cbn [Z.add Z.ltb Z.compare Pos.compare Pos.compare_cont].
    rewrite (Hnum v Hnan Hinf). reflexivity.
  - intros s -> Hs. cbn [tokenLoop].
    cbn [Z.add Z.ltb Z.compare Pos.compare Pos.compare_cont].
    rewrite (Hstr s Hs). reflexivity.
  - intros Hvalid.
    assert (Hbal : forall kind b' fe ek,
               balanced (mkTokenParser 1 [kind] (Some b') (Some c) fe ek (len jsonStr))).
    { intros. split; cbn; lia. }
    split; intros ->; cbn [tokenLoop];
      cbn [Z.add Pos.add Z.ltb Z.compare Pos.compare Pos.compare_cont].
    + rewrite (proj1 (opener_at_root marshal "" c true false (len jsonStr))).
      rewrite (proj1 (closer_in_object marshal 1 [false] _ c true true (len jsonStr)
                                       (Hbal _ _ _ _) Hvalid eq_refl ltac:(lia))).
      reflexivity.
    + rewrite (proj2 (opener_at_root marshal "" c true false (len jsonStr))).
      rewrite (proj1 (closer_in_array marshal 1 [true] _ c true false (len jsonStr)
                                      (Hbal _ _ _ _) Hvalid eq_refl)).
      reflexivity.
Qed.

Lemma smallest_documents_witness :
  Format marshalSmall (decoderOf [TString htmlString]) (NewFormatter None)
         (quote ++ htmlString ++ quote)
  = (quote ++ json_escape htmlString ++ quote, None).
Proof.
  assert (Hne : quote ++ htmlString ++ quote <> "") by discriminate.
  assert (Hlen : len htmlString <= 1000000) by (vm_compute; discriminate).
  exact (proj1 (proj2 (proj2 (proj2 (smallest_documents
                                       marshalSmall (decoderOf [TString htmlString])
                                       (NewFormatter None) DefaultConfig
                                       (quote ++ htmlString ++ quote) [TString htmlString]
                                       Hne eq_refl eq_refl))))
               htmlString eq_refl Hlen).
Defined.

Lemma runTokens_compact_line marshal c tokens :
  (forall v, count_byte (byte_of 10) (marshal v) = O) ->
  CompactDepth c = 1 ->
  forall p p',
    config p = Some c -> balanced p ->
    runTokens marshal tokens p = Ok tt p' ->
    lineBreaks p' = lineBreaks p.
Proof.
  intros Hmarshal Hcompact.
  induction tokens as [| token rest IH]; intros p p' Hconfig Hbal Hrun; cbn in Hrun.
  - inversion Hrun; subst. reflexivity.
  - unfold bind in Hrun.
    destruct (processToken marshal token p) as [[] p1 | e p1 | v p1] eqn:Hstep;
      try discriminate.
    pose proof (processToken_balanced _ _ _ _ Hbal Hstep) as Hbal1.
    pose proof (processToken_depth _ _ _ _ Hstep) as [_ Hconfig1].
    rewrite (IH p1 p' (eq_trans Hconfig1 Hconfig) Hbal1 Hrun).
    eapply processToken_compact_line; try eassumption.
    destruct Hbal as [_ Hrange]. unfold compactAt. rewrite Hcompact.
    destruct (depth p =? 0) eqn:E; zbool; [left; exact E | right].
    replace (1 <=? depth p) with true by (symmetry; apply Z.leb_le; lia).
    reflexivity.
Qed.

(** X17: with the compact depth set to 1 the output is one line.  When
    the marshalled numbers hold no line break, every result [Format]
    returns without an error under such a configuration holds none. *)
Theorem compact_output_is_one_line :
  forall (marshal : float -> string) (newDecoder : string -> Decoder)
         (f : Formatter) (c : Config) (jsonStr result : string),
    (forall v, count_byte (byte_of 10) (marshal v) = O) ->
    f_config f = Some c ->
    CompactDepth c = 1 ->
    Format marshal newDecoder f jsonStr = (result, None) ->
    count_byte (byte_of 10) result = O.
Proof.
  intros marshal newDecoder f c jsonStr result Hmarshal Hconfig Hcompact.
  unfold Format, formatBody.
  destruct (String.eqb jsonStr ""); [discriminate |].
  destruct (tokenLoop _ _ _ _ _) as [r e | n p | v] eqn:Hloop.
  - apply tokenLoop_returned in Hloop. destruct Hloop as [_ He].
    intros H. inversion H; subst. congruence.
  - apply tokenLoop_broke in Hloop. destruct Hloop as (_ & _ & Hrun).
    destruct (negb (depth p =? 0)); [discriminate |].
    destruct (n =? 0); [discriminate |].
    intros H. inversion H; subst.
    assert (Hstart : balanced (newParser f jsonStr)) by (split; cbn; lia).
    change (lineBreaks p = lineBreaks (newParser f jsonStr)).
    exact (runTokens_compact_line marshal c _ Hmarshal Hcompact
                                  (newParser f jsonStr) p Hconfig Hstart Hrun).
  - destruct v; discriminate.
Qed.

Lemma marshalSmall_one_line (v : float) : count_byte (byte_of 10) (marshalSmall v) = O.
Proof.
  unfold marshalSmall.
  destruct (PrimFloat.eqb v 1); [reflexivity |].
  destruct (PrimFloat.eqb v 2); reflexivity.
Qed.

Lemma compact_output_is_one_line_witness :
  count_byte (byte_of 10)
             (fst (Format marshalSmall (decoderOf scenario1_tokens)
                          (NewFormatter (Some (mkConfig 2 false 1))) scenario1))
  = O.
Proof.
  apply (compact_output_is_one_line marshalSmall (decoderOf scenario1_tokens)
                                    (NewFormatter (Some (mkConfig 2 false 1)))
                                    (mkConfig 2 false 1) scenario1 _
                                    marshalSmall_one_line eq_refl eq_refl).
  vm_compute. reflexivity.
Defined.

(** X18: the numbers [handleNumber] refuses.  Where the parser has a
    builder and a configuration and expects no key, a NaN is refused with
    the NaN message and either infinity with the message of the infinite
    values, the parser being left as it was.  The same two tests stand in
    [formatNumber], which is called after them: the error of
    [formatNumber] that [handleNumber] would wrap is returned for no
    number and no parser. *)
Theorem number_guards :
  forall (marshal : float -> string) (p : TokenParser) (b : string) (c : Config),
    builder p = Some b -> config p = Some c -> expectingKey p = false ->
    (forall v, PrimFloat.is_nan v = true ->
               handleNumber marshal v p
               = Err (NewFormatError "invalid JSON: NaN values are not allowed") p) /\
    handleNumber marshal PrimFloat.infinity p
    = Err (NewFormatError "invalid JSON: infinite values are not allowed") p /\
    handleNumber marshal PrimFloat.neg_infinity p
    = Err (NewFormatError "invalid JSON: infinite values are not allowed") p /\
    (forall v e p',
        handleNumber marshal v p = Err e p' ->
        forall cause, e <> WrapFormatError "failed to format number" cause).
Proof.
  intros marshal p b c Hb Hc Hek.
  destruct p as [d st b0 c0 fe ek il]. cbn in Hb, Hc, Hek. subst b0 c0 ek.
  split; [| split; [| split]].
  - intros v Hnan. unfold handleNumber, nilGuards, guard, bind, isNil. cbn.
    unfold isNaN. unfold PrimFloat.is_nan in Hnan. rewrite Hnan. reflexivity.
  - reflexivity.
  - reflexivity.
  - intros v e p'. unfold_engine; unfold strings_Repeat; cbn. split_ifs;
      intros H cause; try discriminate H; inversion H; subst; discriminate.
Qed.

Lemma number_guards_witness :
  handleNumber marshalSmall PrimFloat.nan afterOpenBracket
  = Err (NewFormatError "invalid JSON: NaN values are not allowed") afterOpenBracket.
Proof.
  exact (proj1 (number_guards marshalSmall afterOpenBracket "[" DefaultConfig
                              eq_refl eq_refl eq_refl)
               PrimFloat.nan eq_refl).
Defined.

(** ** Flat containers *)

Lemma scalar_token_in_array marshal d st b c fe il token text :
  balanced (mkTokenParser d st (Some b) (Some c) fe false il) ->
  validConfig c ->
  topIsArray st = true ->
  scalarText marshal token = Some text ->
  processToken marshal token (mkTokenParser d st (Some b) (Some c) fe false il)
  = Ok tt (mkTokenParser d st (Some (b ++ elementLead c d fe ++ text)) (Some c)
                         false false il).
Proof.
  intros Hbal Hvalid Htop Htext.
  destruct (scalar_in_array marshal d st b c fe il Hbal Hvalid Htop)
    as (Hnull & Hbool & Hnum & Hstr).
  destruct token as [delim | s | v | v | | name]; cbn in Htext; try discriminate.
  - destruct (1000000 <? len s) eqn:E; [discriminate |]. zbool.
    inversion Htext; subst. apply Hstr. exact E.
  - destruct (isNaN v) eqn:E1; [discriminate |].
    destruct (isInfinite v) eqn:E2; [discriminate |].
    inversion Htext; subst. apply Hnum; assumption.
  - inversion Htext; subst. apply Hbool.
  - inversion Htext; subst. apply Hnull.
Qed.

Lemma scalar_token_in_object marshal d st b c fe il token text :
  balanced (mkTokenParser d st (Some b) (Some c) fe false il) ->
  validConfig c ->
  topIsArray st = false -> 0 < d ->
  scalarText marshal token = Some text ->
  processToken marshal token (mkTokenParser d st (Some b) (Some c) fe false il)
  = Ok tt (mkTokenParser d st (Some (b ++ " " ++ text)) (Some c) false true il).
Proof.
  intros Hbal Hvalid Htop Hpos Htext.
  destruct (member_in_object marshal d st b c fe il Hbal Hvalid Htop Hpos)
    as (_ & Hnull & Hbool & Hnum & Hstr).
  destruct token as [delim | s | v | v | | name]; cbn in Htext; try discriminate.
  - destruct (1000000 <? len s) eqn:E; [discriminate |]. zbool.
    inversion Htext; subst. apply Hstr. exact E.
  - destruct (isNaN v) eqn:E1; [discriminate |].
    destruct (isInfinite v) eqn:E2; [discriminate |].
    inversion Htext; subst. apply Hnum; assumption.
  - inversion Htext; subst. apply Hbool.
  - inversion Htext; subst. apply Hnull.
Qed.

Lemma elements_in_array marshal d st c il elements :
  validConfig c -> topIsArray st = true ->
  Z.of_nat (List.length st) = d -> 0 <= d <= 100 ->
  forall b fe text,
    elementsText marshal c d fe elements = Some text ->
    runTokens marshal elements (mkTokenParser d st (Some b) (Some c) fe false il)
    = Ok tt (mkTokenParser d st (Some (b ++ text)) (Some c)
                           (match elements with [] => fe | _ => false end) false il).
Proof.
  intros Hvalid Htop Hlen Hrange.
  induction elements as [| token rest IH]; intros b fe text Htext; cbn in Htext.
  - injection Htext as <-. rewrite append_nil_r. reflexivity.
  - destruct (scalarText marshal token) as [x |] eqn:Hx; [| discriminate].
    destruct (elementsText marshal c d false rest) as [y |] eqn:Hy; [| discriminate].
    injection Htext as <-. cbn [runTokens]. unfold bind.
    rewrite (scalar_token_in_array marshal d st b c fe il token x
                                   (conj Hlen Hrange) Hvalid Htop Hx).
    rewrite (IH _ false y Hy).
    rewrite !append_assoc. destruct rest; reflexivity.
Qed.

Lemma members_in_object marshal d st c il members :
  validConfig c -> topIsArray st = false ->
  Z.of_nat (List.length st) = d -> 0 < d <= 100 ->
  forall b fe text,
    membersText marshal c d fe members = Some text ->
    runTokens marshal (memberTokens members)
              (mkTokenParser d st (Some b) (Some c) fe true il)
    = Ok tt (mkTokenParser d st (Some (b ++ text)) (Some c)
                           (match members with [] => fe | _ => false end) true il).
Proof.
  intros Hvalid Htop Hlen Hrange.
  assert (Hbal : forall b fe ek, balanced (mkTokenParser d st (Some b) (Some c) fe ek il)).
  { intros. split; cbn; lia. }
  induction members as [| [key value] rest IH]; intros b fe text Htext; cbn in Htext.
  - injection Htext as <-. rewrite append_nil_r. reflexivity.
  - destruct (scalarText marshal value) as [x |] eqn:Hx; [| discriminate].
    destruct (membersText marshal c d false rest) as [y |] eqn:Hy; [| discriminate].
    destruct (1000000 <? len key) eqn:Hkey; [discriminate |]. zbool.
    injection Htext as <-. cbn [memberTokens runTokens]. unfold bind.
    rewrite (proj1 (member_in_object marshal d st b c fe il (Hbal _ _ _) Hvalid Htop
                                     ltac:(lia)) key Hkey).
    rewrite (scalar_token_in_object marshal d st _ c false il value x
                                    (Hbal _ _ _) Hvalid Htop ltac:(lia) Hx).
    rewrite (IH _ false y Hy).
    rewrite !append_assoc. destruct rest; reflexivity.
Qed.

Lemma length_memberTokens (members : list (string * Token)) :
  List.length (memberTokens members) = (2 * List.length members)%nat.
Proof.
  induction members as [| [key value] rest IH]; cbn; [reflexivity | rewrite IH; lia].
Qed.

(** X19: a flat array is laid out element by element.  For an input
    whose tokens are a bracket, values that are no containers (finite
    numbers, strings within the length limit) and the closing bracket, at
    most 10000 tokens in all, [Format] returns, under a valid
    configuration, the bracket, each value after what leads it in at depth
    1 (a line break and the indentation before the first, a comma and the
    same before the others; nothing and a comma with a space when depth 1
    is compact), and the closing bracket on a line of its own, or at once
    when depth 1 is compact. *)
Theorem flat_array_layout :
  forall (marshal : float -> string) (newDecoder : string -> Decoder)
         (f : Formatter) (c : Config) (jsonStr : string) (elements : list Token)
         (text : string),
    jsonStr <> "" ->
    f_config f = Some c -> validConfig c ->
    newDecoder jsonStr
    = mkDecoder (TDelim LBracket :: elements ++ [TDelim RBracket]) None ->
    Z.of_nat (List.length elements) + 2 <= 10000 ->
    elementsText marshal c 1 true elements = Some text ->
    Format marshal newDecoder f jsonStr = ("[" ++ text ++ closeText c 1 "]", None).
Proof.
  intros marshal newDecoder f c jsonStr elements text Hne Hconfig Hvalid Hdec Hcount Htext.
  apply String.eqb_neq in Hne.
  unfold Format, formatBody. rewrite Hne, Hdec. cbn [dec_tokens dec_end].
  rewrite tokenLoop_below_limit
    by (cbn [List.length]; rewrite length_app; cbn [List.length]; lia).
  unfold newParser. rewrite Hconfig.
  cbn [runTokens]. unfold bind.
  rewrite (proj2 (opener_at_root marshal "" c true false (len jsonStr))).
  rewrite runTokens_append.
  rewrite (elements_in_array marshal 1 [true] c (len jsonStr) elements Hvalid eq_refl
                             eq_refl ltac:(lia) _ true text Htext).
  cbn [runTokens]. unfold bind.
  rewrite (proj1 (closer_in_array marshal 1 [true] _ c _ false (len jsonStr)
                                  ltac:(split; cbn; lia) Hvalid eq_refl)).
  cbn [ret depth Z.sub Z.add Z.eqb negb Z.opp Z.pos_sub builderString builder].
  replace (0 + Z.of_nat (List.length (TDelim LBracket :: elements ++ [TDelim RBracket])) =? 0)
    with false by (symmetry; apply Z.eqb_neq; cbn [List.length]; lia).
  rewrite !append_assoc. reflexivity.
Qed.

Lemma flat_array_layout_witness :
  Format marshalSmall (decoderOf [TDelim LBracket; TFloat64 1; TNil; TDelim RBracket])
         (NewFormatter None) "[1,null]"
  = ("[" ++ newline ++ "  1," ++ newline ++ "  null" ++ newline ++ "]", None).
Proof.
  assert (Hne : "[1,null]" <> "") by discriminate.
  assert (Hvalid : validConfig DefaultConfig) by (split; cbn; lia).
  assert (Hcount : Z.of_nat (List.length [TFloat64 1; TNil]) + 2 <= 10000) by (cbn; lia).
  exact (flat_array_layout marshalSmall
                           (decoderOf [TDelim LBracket; TFloat64 1; TNil; TDelim RBracket])
                           (NewFormatter None) DefaultConfig "[1,null]"
                           [TFloat64 1; TNil] _
                           Hne eq_refl Hvalid eq_refl Hcount eq_refl).
Defined.

(** X20: a flat object is laid out member by member.  For an input
    whose tokens are a brace, keys each followed by a value that is no
    container, and the closing brace, at most 10000 tokens in all,
    [Format] returns, under a valid configuration, the brace, each key
    after what leads it in at depth 1, its colon, one space and its value,
    and the closing brace on a line of its own, or at once when depth 1 is
    compact. *)
Theorem flat_object_layout :
  forall (marshal : float -> string) (newDecoder : string -> Decoder)
         (f : Formatter) (c : Config) (jsonStr : string)
         (members : list (string * Token)) (text : string),
    jsonStr <> "" ->
    f_config f = Some c -> validConfig c ->
    newDecoder jsonStr
    = mkDecoder (TDelim LBrace :: memberTokens members ++ [TDelim RBrace]) None ->
    2 * Z.of_nat (List.length members) + 2 <= 10000 ->
    membersText marshal c 1 true members = Some text ->
    Format marshal newDecoder f jsonStr = ("{" ++ text ++ closeText c 1 "}", None).
Proof.
  intros marshal newDecoder f c jsonStr members text Hne Hconfig Hvalid Hdec Hcount Htext.
  apply String.eqb_neq in Hne.
  unfold Format, formatBody. rewrite Hne, Hdec. cbn [dec_tokens dec_end].
  rewrite tokenLoop_below_limit
    by (cbn [List.length]; rewrite length_app, length_memberTokens; cbn [List.length]; lia).
  unfold newParser. rewrite Hconfig.
  cbn [runTokens]. unfold bind.
  rewrite (proj1 (opener_at_root marshal "" c true false (len jsonStr))).
  rewrite runTokens_append.
  rewrite (members_in_object marshal 1 [false] c (len jsonStr) members Hvalid eq_refl
                             eq_refl ltac:(lia) _ true text Htext).
  cbn [runTokens]. unfold bind.
  rewrite (proj1 (closer_in_object marshal 1 [false] _ c _ true (len jsonStr)
                                   ltac:(split; cbn; lia) Hvalid eq_refl ltac:(lia))).
  cbn [ret depth Z.sub Z.add Z.eqb negb Z.opp Z.pos_sub builderString builder].
  replace (0 + Z.of_nat (List.length (TDelim LBrace :: memberTokens members
                                             ++ [TDelim RBrace])) =? 0)
    with false by (symmetry; apply Z.eqb_neq; cbn [List.length]; lia).
  rewrite !append_assoc. reflexivity.
Qed.

Lemma flat_object_layout_witness :
  Format marshalSmall
         (decoderOf [TDelim LBrace; TString "a"; TFloat64 1; TString "b"; TBool true;
                     TDelim RBrace])
         (NewFormatter None) "{...}"
  = ("{" ++ newline ++ "  " ++ quote ++ "a" ++ quote ++ ": 1," ++ newline
         ++ "  " ++ quote ++ "b" ++ quote ++ ": true" ++ newline ++ "}", None).
Proof.
  assert (Hne : "{...}" <> "") by discriminate.
  assert (Hvalid : validConfig DefaultConfig) by (split; cbn; lia).
  assert (Hcount : 2 * Z.of_nat (List.length [("a", TFloat64 1); ("b", TBool true)]) + 2
                   <= 10000) by (cbn; lia).
  exact (flat_object_layout marshalSmall
                            (decoderOf [TDelim LBrace; TString "a"; TFloat64 1;
                                        TString "b"; TBool true; TDelim RBrace])
                            (NewFormatter None) DefaultConfig "{...}"
                            [("a", TFloat64 1); ("b", TBool true)] _
                            Hne eq_refl Hvalid eq_refl Hcount eq_refl).
Defined.
